(** * Vocuro: the streaming-transcription pipeline of the MicRecorder component

    A shallow embedding of the client-side pipeline of [MicRecorder]
    (src/unnamed/part_000): the refs and React state of the component become
    one record, every handler the component installs becomes a function on
    that record, and the browser (recorder events, timers, network replies)
    becomes a list of events folded over the handlers.  An [async] function
    is cut at its awaited fetch: the part before it runs with the call, the
    part after it runs when the reply comes.  Console output is left out,
    but for the milestone line, and with it the counter [chunkIndex] that
    only feeds it; so is the release of the media stream. *)

From Stdlib Require Import String Ascii.
From Stdlib Require Import Strings.Byte.
From Stdlib Require Import List Bool Arith NArith Lia.
Import ListNotations.

Set Implicit Arguments.

(** ** JavaScript values *)

Module Js.

(** A JS string is a sequence of UTF-16 code units. *)
Definition jsstring := list N.

Definition lit (s : string) : jsstring :=
  map N_of_ascii (list_ascii_of_string s).

(** WhiteSpace and LineTerminator code points, as [String.prototype.trim]
    strips them. *)
Definition is_ws (c : N) : bool :=
  ((9 <=? c) && (c <=? 13) || (c =? 32) || (c =? 160) || (c =? 0x1680)
   || (0x2000 <=? c) && (c <=? 0x200A) || (c =? 0x2028) || (c =? 0x2029)
   || (c =? 0x202F) || (c =? 0x205F) || (c =? 0x3000) || (c =? 0xFEFF))%N.

Fixpoint trimStart (s : jsstring) : jsstring :=
  match s with
  | [] => []
  | c :: r => if is_ws c then trimStart r else s
  end.

Definition trimEnd (s : jsstring) : jsstring := rev (trimStart (rev s)).

Definition trim (s : jsstring) : jsstring := trimEnd (trimStart s).

(** Truthiness of a string: the empty string is falsy. *)
Definition truthy (s : jsstring) : bool :=
  match s with [] => false | _ :: _ => true end.

(** A Blob: its bytes and its MIME type; [size] is the number of bytes. *)
Record Blob := mkBlob { blob_data : list byte; blob_type : jsstring }.

Definition size (b : Blob) : nat := length (blob_data b).

(** [new Blob(parts, { type })]: the bytes of the parts, in order. *)
Definition newBlob (parts : list Blob) (type : jsstring) : Blob :=
  mkBlob (concat (map blob_data parts)) type.

(** [Array.prototype.shift]: the first element, if any, and the rest. *)
Definition shift (A : Type) (q : list A) : option A * list A :=
  match q with
  | [] => (None, [])
  | x :: r => (Some x, r)
  end.

End Js.
Import Js.

(** ** The component and its environment *)

(** The body of one POST /transcribe: the form field [audio] and the chunk
    number its file name [chunk-N.webm] is built from. *)
Record Request := mkRequest { req_chunkNum : nat; req_audio : Blob }.

(** The JSON body of a successful /transcribe reply; a missing [text] is
    [None]. *)
Record TranscribeResult := mkResult { text : option jsstring; milestone : bool }.

(** How the awaited /transcribe call ends: the fetch rejects, the status is
    not ok, or the body parses. *)
Inductive Reply :=
| FetchRejected
| NotOk (status : nat)
| OkJson (result : TranscribeResult).

Inductive StartReply :=
| StartRejected
| StartNotOk (status : nat)
| StartOk (session_id : jsstring).

Record State := mkState {
  (* React state *)
  transcript : jsstring;
  currentSession : option jsstring;
  (* refs *)
  chunkQueue : list Blob;
  isProcessing : bool;
  sessionStarting : bool;
  chunkCounter : nat;
  audioChunks : list Blob;
  (* environment *)
  inFlight : list Request;        (* /transcribe calls awaiting their reply *)
  timeouts : nat;                 (* pending setTimeout(..., 100) callbacks *)
  startPending : nat;             (* /start_session calls awaiting their reply *)
  (* history *)
  transcribeCalls : list Request; (* every /transcribe call issued, oldest first *)
  startCalls : nat;               (* /start_session calls issued *)
  submitted : list Blob;          (* payloads handed to dispatch, oldest first *)
  milestoneLogs : nat             (* "Reached 5000 character milestone" lines *)
}.

Definition initial : State :=
  mkState [] None [] false false 0 [] [] 0 0 [] 0 [] 0.

Definition set_transcript (v : jsstring) (s : State) : State :=
  mkState v (currentSession s) (chunkQueue s) (isProcessing s)
    (sessionStarting s) (chunkCounter s) (audioChunks s) (inFlight s)
    (timeouts s) (startPending s) (transcribeCalls s) (startCalls s)
    (submitted s) (milestoneLogs s).

Definition set_currentSession (v : option jsstring) (s : State) : State :=
  mkState (transcript s) v (chunkQueue s) (isProcessing s)
    (sessionStarting s) (chunkCounter s) (audioChunks s) (inFlight s)
    (timeouts s) (startPending s) (transcribeCalls s) (startCalls s)
    (submitted s) (milestoneLogs s).

Definition set_chunkQueue (v : list Blob) (s : State) : State :=
  mkState (transcript s) (currentSession s) v (isProcessing s)
    (sessionStarting s) (chunkCounter s) (audioChunks s) (inFlight s)
    (timeouts s) (startPending s) (transcribeCalls s) (startCalls s)
    (submitted s) (milestoneLogs s).

Definition set_isProcessing (v : bool) (s : State) : State :=
  mkState (transcript s) (currentSession s) (chunkQueue s) v
    (sessionStarting s) (chunkCounter s) (audioChunks s) (inFlight s)
    (timeouts s) (startPending s) (transcribeCalls s) (startCalls s)
    (submitted s) (milestoneLogs s).

Definition set_sessionStarting (v : bool) (s : State) : State :=
  mkState (transcript s) (currentSession s) (chunkQueue s) (isProcessing s)
    v (chunkCounter s) (audioChunks s) (inFlight s)
    (timeouts s) (startPending s) (transcribeCalls s) (startCalls s)
    (submitted s) (milestoneLogs s).

Definition set_chunkCounter (v : nat) (s : State) : State :=
  mkState (transcript s) (currentSession s) (chunkQueue s) (isProcessing s)
    (sessionStarting s) v (audioChunks s) (inFlight s)
    (timeouts s) (startPending s) (transcribeCalls s) (startCalls s)
    (submitted s) (milestoneLogs s).

Definition set_audioChunks (v : list Blob) (s : State) : State :=
  mkState (transcript s) (currentSession s) (chunkQueue s) (isProcessing s)
    (sessionStarting s) (chunkCounter s) v (inFlight s)
    (timeouts s) (startPending s) (transcribeCalls s) (startCalls s)
    (submitted s) (milestoneLogs s).

Definition set_inFlight (v : list Request) (s : State) : State :=
  mkState (transcript s) (currentSession s) (chunkQueue s) (isProcessing s)
    (sessionStarting s) (chunkCounter s) (audioChunks s) v
    (timeouts s) (startPending s) (transcribeCalls s) (startCalls s)
    (submitted s) (milestoneLogs s).

Definition set_timeouts (v : nat) (s : State) : State :=
  mkState (transcript s) (currentSession s) (chunkQueue s) (isProcessing s)
    (sessionStarting s) (chunkCounter s) (audioChunks s) (inFlight s)
    v (startPending s) (transcribeCalls s) (startCalls s)
    (submitted s) (milestoneLogs s).

Definition set_startPending (v : nat) (s : State) : State :=
  mkState (transcript s) (currentSession s) (chunkQueue s) (isProcessing s)
    (sessionStarting s) (chunkCounter s) (audioChunks s) (inFlight s)
    (timeouts s) v (transcribeCalls s) (startCalls s)
    (submitted s) (milestoneLogs s).

Definition set_transcribeCalls (v : list Request) (s : State) : State :=
  mkState (transcript s) (currentSession s) (chunkQueue s) (isProcessing s)
    (sessionStarting s) (chunkCounter s) (audioChunks s) (inFlight s)
    (timeouts s) (startPending s) v (startCalls s)
    (submitted s) (milestoneLogs s).

Definition set_startCalls (v : nat) (s : State) : State :=
  mkState (transcript s) (currentSession s) (chunkQueue s) (isProcessing s)
    (sessionStarting s) (chunkCounter s) (audioChunks s) (inFlight s)
    (timeouts s) (startPending s) (transcribeCalls s) v
    (submitted s) (milestoneLogs s).

Definition set_submitted (v : list Blob) (s : State) : State :=
  mkState (transcript s) (currentSession s) (chunkQueue s) (isProcessing s)
    (sessionStarting s) (chunkCounter s) (audioChunks s) (inFlight s)
    (timeouts s) (startPending s) (transcribeCalls s) (startCalls s)
    v (milestoneLogs s).

Definition set_milestoneLogs (v : nat) (s : State) : State :=
  mkState (transcript s) (currentSession s) (chunkQueue s) (isProcessing s)
    (sessionStarting s) (chunkCounter s) (audioChunks s) (inFlight s)
    (timeouts s) (startPending s) (transcribeCalls s) (startCalls s)
    (submitted s) v.

(** ** sendChunkToBackend *)

(** Up to the awaited fetch: the guard on [isProcessing], the flag, the
    counter, and the request going out. *)
Definition sendChunkToBackend (audioBlob : Blob) (s : State) : State :=
  if isProcessing s then s
  else
    let s := set_isProcessing true s in
    let chunkNum := S (chunkCounter s) in
    let s := set_chunkCounter chunkNum s in
    let request := mkRequest chunkNum audioBlob in
    set_inFlight (inFlight s ++ [request])
      (set_transcribeCalls (transcribeCalls s ++ [request]) s).

(** The [try] block after the reply: a non-blank text is trimmed and joined
    to the transcript, and a milestone flag on such a reply is logged. *)
Definition handleResult (result : TranscribeResult) (s : State) : State :=
  match text result with
  | Some t =>
      if truthy t && truthy (trim t) then
        let newText := trim t in
        let prev := transcript s in
        let s :=
          set_transcript
            (if truthy prev then prev ++ lit " " ++ newText else newText) s in
        if milestone result then set_milestoneLogs (S (milestoneLogs s)) s
        else s
      else s
  | None => s
  end.

(** The callback of [setTimeout(..., 100)] in the [finally] block. *)
Definition drain (s : State) : State :=
  if (0 <? length (chunkQueue s)) && negb (isProcessing s) then
    match shift (chunkQueue s) with
    | (Some nextChunk, rest) =>
        sendChunkToBackend nextChunk (set_chunkQueue rest s)
    | (None, _) => s
    end
  else s.

(** From the reply on: [try], [catch] (which only logs) and [finally]. *)
Definition sendChunkToBackend_resume (r : Reply) (s : State) : State :=
  let s :=
    match r with
    | OkJson result => handleResult result s
    | FetchRejected | NotOk _ => s
    end in
  let s := set_isProcessing false s in
  set_timeouts (S (timeouts s)) s.

(** ** createCompleteAudioFile *)

Definition webm_opus : jsstring := lit "audio/webm;codecs=opus".

Definition createCompleteAudioFile (s : State) : option Blob :=
  match audioChunks s with
  | [] => None
  | _ :: _ => Some (newBlob (audioChunks s) webm_opus)
  end.

(** ** startNewSession *)

Inductive Outcome (A : Type) :=
| Returned (v : A)
| Suspended.
Arguments Suspended {A}.

(** Up to the awaited fetch: the guard on [sessionStarting], which returns
    the session the component already holds, or the request going out. *)
Definition startNewSession (s : State) : State * Outcome (option jsstring) :=
  if sessionStarting s then (s, Returned (currentSession s))
  else
    let s := set_sessionStarting true s in
    (set_startPending (S (startPending s))
       (set_startCalls (S (startCalls s)) s),
     Suspended).

(** From the reply on, with the value the call returns. *)
Definition startNewSession_resume (r : StartReply) (s : State)
  : State * option jsstring :=
  match r with
  | StartOk session_id =>
      let s := set_currentSession (Some session_id) s in
      let s := set_transcript [] s in
      let s := set_chunkCounter 0 s in
      let s := set_audioChunks [] s in
      (set_sessionStarting false s, Some session_id)
  | StartRejected | StartNotOk _ => (set_sessionStarting false s, None)
  end.

(** ** The recorder's handlers *)

Definition ondataavailable (data : Blob) (s : State) : State :=
  if 1000 <? size data then
    let s := set_audioChunks (audioChunks s ++ [data]) s in
    match createCompleteAudioFile s with
    | Some completeFile =>
        let s := set_chunkQueue (chunkQueue s ++ [completeFile]) s in
        let s := set_submitted (submitted s ++ [completeFile]) s in
        if negb (isProcessing s) then
          match shift (chunkQueue s) with
          | (Some chunk, rest) =>
              sendChunkToBackend chunk (set_chunkQueue rest s)
          | (None, _) => s
          end
        else s
    | None => s
    end
  else s.

Definition onerror (s : State) : State :=
  set_transcript (lit "Recording error occurred") s.

Definition onstart (s : State) : State :=
  set_audioChunks [] (set_transcript (lit "Listening...") s).

Definition onstop (s : State) : State :=
  match createCompleteAudioFile s with
  | Some finalFile =>
      if 1000 <? size finalFile then
        sendChunkToBackend finalFile
          (set_submitted (submitted s ++ [finalFile]) s)
      else s
  | None => s
  end.

(** ** The event loop *)

Inductive Event :=
| DataAvailable (data : Blob)
| RecorderStart
| RecorderStop
| RecorderError
| TranscribeReplied (i : nat) (r : Reply)
| TimeoutFired
| StartSessionCalled
| StartSessionReplied (r : StartReply).

Fixpoint remove_nth (A : Type) (i : nat) (l : list A) : list A :=
  match i, l with
  | _, [] => []
  | 0, _ :: r => r
  | S i, x :: r => x :: remove_nth i r
  end.

(** One turn of the event loop.  A reply or a timer that nothing is waiting
    for is not an event the browser delivers: it leaves the state alone. *)
Definition step (e : Event) (s : State) : State :=
  match e with
  | DataAvailable data => ondataavailable data s
  | RecorderStart => onstart s
  | RecorderStop => onstop s
  | RecorderError => onerror s
  | TranscribeReplied i r =>
      match nth_error (inFlight s) i with
      | Some _ =>
          sendChunkToBackend_resume r
            (set_inFlight (remove_nth i (inFlight s)) s)
      | None => s
      end
  | TimeoutFired =>
      match timeouts s with
      | S n => drain (set_timeouts n s)
      | 0 => s
      end
  | StartSessionCalled => fst (startNewSession s)
  | StartSessionReplied r =>
      match startPending s with
      | S n => fst (startNewSession_resume r (set_startPending n s))
      | 0 => s
      end
  end.

Definition run (evs : list Event) (s : State) : State :=
  fold_left (fun s e => step e s) evs s.

(** The bodies of the /transcribe calls, oldest first. *)
Definition sent (s : State) : list Blob := map req_audio (transcribeCalls s).

(** ** Vocabulary of the properties *)

(** A segment the capture handler keeps: more than 1000 bytes. *)
Definition accepted (data : Blob) : bool := 1000 <? size data.

(** The payloads the accumulator produces for a sequence of captured
    segments: [createCompleteAudioFile] after each of them. *)
Fixpoint payloads (segments : list Blob) (s : State) : list (option Blob) :=
  match segments with
  | [] => []
  | data :: rest =>
      let s' := ondataavailable data s in
      createCompleteAudioFile s' :: payloads rest s'
  end.

(** Events at which a session begins: the recorder starts, or a start
    request is answered with a session id. *)
Definition begins_session (e : Event) : bool :=
  match e with
  | RecorderStart => true
  | StartSessionReplied (StartOk _) => true
  | _ => false
  end.

Definition is_stop (e : Event) : bool :=
  match e with
  | RecorderStop => true
  | _ => false
  end.

Definition blob_eqb (a b : Blob) : bool :=
  if list_eq_dec Byte.byte_eq_dec (blob_data a) (blob_data b) then
    if list_eq_dec N.eq_dec (blob_type a) (blob_type b) then true else false
  else false.

(** [in_order xs ys]: [xs] can be read off [ys] from left to right, that is,
    the elements of [xs] occur in [ys] in the same relative order. *)
Fixpoint in_order (xs ys : list Blob) : bool :=
  match xs, ys with
  | [], _ => true
  | _ :: _, [] => false
  | x :: xs', y :: ys' =>
      if blob_eqb x y then in_order xs' ys' else in_order xs ys'
  end.

(** The non-null values among the results of calls. *)
Definition identifiers (results : list (option jsstring)) : list jsstring :=
  flat_map (fun r => match r with Some id => [id] | None => [] end) results.

(** What one event adds to the accumulated segments, and which payloads it
    hands to the dispatch logic. *)
Definition kept (e : Event) : list Blob :=
  match e with
  | DataAvailable data => if accepted data then [data] else []
  | _ => []
  end.

Definition handed (e : Event) (s : State) : list Blob :=
  match e with
  | DataAvailable data =>
      if accepted data then [newBlob (audioChunks s ++ [data]) webm_opus]
      else []
  | RecorderStop =>
      match createCompleteAudioFile s with
      | Some finalFile => if 1000 <? size finalFile then [finalFile] else []
      | None => []
      end
  | _ => []
  end.

(** [holds before data p]: the bytes of [data] sit in payload [p] right
    after the bytes [before]. *)
Definition holds (before : list byte) (data p : Blob) : Prop :=
  exists after, blob_data p = before ++ blob_data data ++ after.

(** The accepted segments a sequence of events delivers, in order. *)
Definition arrivals (evs : list Event) : list Blob := flat_map kept evs.

(** A payload built from segments among [arrived]. *)
Definition made_of (arrived : list Blob) (p : Blob) : Prop :=
  exists chunks, incl chunks arrived /\ p = newBlob chunks webm_opus.

(** Only segments among [arrived] are accumulated, and only payloads built
    from them wait in the queue or have been sent. *)
Definition clean (arrived : list Blob) (s : State) : Prop :=
  incl (audioChunks s) arrived
  /\ Forall (made_of arrived) (chunkQueue s)
  /\ Forall (made_of arrived) (sent s).

(** The flag and the requests awaiting a reply agree: with the flag down
    nothing is in flight, and never more than one request is. *)
Definition flight_ok (s : State) : Prop :=
  (isProcessing s = false -> inFlight s = []) /\ length (inFlight s) <= 1.

(** Every payload handed over so far is either already sent or still
    waiting, in the order of arrival. *)
Definition fifo (s : State) : Prop := sent s ++ chunkQueue s = submitted s.

(** The state without the fields only the transcript logic writes. *)
Definition dispatch_view (s : State) : State :=
  set_milestoneLogs 0 (set_transcript [] s).

(** The same event with the content of the reply forgotten. *)
Definition forget_reply (e : Event) : Event :=
  match e with
  | TranscribeReplied i _ => TranscribeReplied i FetchRejected
  | _ => e
  end.

(** Events that answer a start request. *)
Definition is_start_reply (e : Event) : bool :=
  match e with
  | StartSessionReplied _ => true
  | _ => false
  end.

(** The value a call has returned, if it has. *)
Definition outcome_value (o : Outcome (option jsstring)) : option jsstring :=
  match o with
  | Returned v => v
  | Suspended => None
  end.

(** A segment of [n] bytes, all equal to [b]. *)
Definition segment (n : nat) (b : byte) : Blob := mkBlob (repeat b n) webm_opus.

(** ** The milestone *)

(** Modelled from the spec: the cumulative character count and the one-shot
    milestone flag of TranscriptState (sections 3 and 4.4).  In the
    repository they are kept by the transcription backend
    (speech_to_text.py), which is not part of the sources at hand; the client
    only reads the [milestone] field of each reply.  A blank result is a
    no-op; any other is joined to the transcript, with one space unless the
    transcript is empty or ends with whitespace, the count is recomputed, and
    the signal is raised when the count reaches the threshold while the flag
    is still down. *)
Record TranscriptState := mkTranscriptState {
  ts_transcript : jsstring;
  ts_count : nat;
  ts_milestone : bool
}.

Definition milestone_threshold : nat := 5000.

Definition ends_with_ws (s : jsstring) : bool :=
  match rev s with
  | [] => false
  | c :: _ => is_ws c
  end.

Definition onResult (t : jsstring) (st : TranscriptState)
  : TranscriptState * bool :=
  if truthy (trim t) then
    let prev := ts_transcript st in
    let joined :=
      if truthy prev && negb (ends_with_ws prev) then prev ++ lit " " ++ t
      else prev ++ t in
    let count := length joined in
    let crosses := negb (ts_milestone st) && (milestone_threshold <=? count) in
    (mkTranscriptState joined count (ts_milestone st || crosses), crosses)
  else (st, false).

Definition fresh : TranscriptState := mkTranscriptState [] 0 false.

(** One session of results: each text goes through the modelled service
    state, which decides the [milestone] field of the reply, and the reply
    goes through the client's handling of it. *)
Fixpoint replies (texts : list jsstring) (st : TranscriptState) (s : State)
  : TranscriptState * State :=
  match texts with
  | [] => (st, s)
  | t :: rest =>
      let (st', signal) := onResult t st in
      replies rest st' (handleResult (mkResult (Some t) signal) s)
  end.

(** * The rest of the component *)

(** Events that answer a start request with a session id. *)
Definition is_start_ok (e : Event) : bool :=
  match e with
  | StartSessionReplied (StartOk _) => true
  | _ => false
  end.

(** What one event does to the dispatch queue: the cases of [step], read on
    the flag, the request in flight, the waiting payloads, the log of calls,
    the drain timers and the chunk counter. *)
Inductive Dispatch (e : Event) (s s' : State) : Prop :=
| dispatch_same :
    isProcessing s' = isProcessing s -> inFlight s' = inFlight s ->
    chunkQueue s' = chunkQueue s -> transcribeCalls s' = transcribeCalls s ->
    timeouts s' = timeouts s -> chunkCounter s' = chunkCounter s ->
    Dispatch e s s'
| dispatch_reset :
    is_start_ok e = true ->
    isProcessing s' = isProcessing s -> inFlight s' = inFlight s ->
    chunkQueue s' = chunkQueue s -> transcribeCalls s' = transcribeCalls s ->
    timeouts s' = timeouts s -> chunkCounter s' = 0 ->
    Dispatch e s s'
| dispatch_timer :
    timeouts s = S (timeouts s') ->
    isProcessing s = true \/ chunkQueue s = [] ->
    isProcessing s' = isProcessing s -> inFlight s' = inFlight s ->
    chunkQueue s' = chunkQueue s -> transcribeCalls s' = transcribeCalls s ->
    chunkCounter s' = chunkCounter s ->
    Dispatch e s s'
| dispatch_enqueue (data : Blob) :
    accepted data = true -> isProcessing s = true ->
    chunkQueue s'
      = chunkQueue s ++ [newBlob (audioChunks s ++ [data]) webm_opus] ->
    isProcessing s' = isProcessing s -> inFlight s' = inFlight s ->
    transcribeCalls s' = transcribeCalls s ->
    timeouts s' = timeouts s -> chunkCounter s' = chunkCounter s ->
    Dispatch e s s'
| dispatch_replied (i : nat) (request : Request) :
    nth_error (inFlight s) i = Some request ->
    isProcessing s' = false -> inFlight s' = remove_nth i (inFlight s) ->
    timeouts s' = S (timeouts s) ->
    chunkQueue s' = chunkQueue s -> transcribeCalls s' = transcribeCalls s ->
    chunkCounter s' = chunkCounter s ->
    Dispatch e s s'
| dispatch_send (audioBlob : Blob) :
    isProcessing s = false -> isProcessing s' = true ->
    inFlight s' = inFlight s ++ [mkRequest (S (chunkCounter s)) audioBlob] ->
    transcribeCalls s'
      = transcribeCalls s ++ [mkRequest (S (chunkCounter s)) audioBlob] ->
    chunkCounter s' = S (chunkCounter s) ->
    (exists data,
        accepted data = true
        /\ chunkQueue s ++ [newBlob (audioChunks s ++ [data]) webm_opus]
           = audioBlob :: chunkQueue s'
        /\ timeouts s' = timeouts s)
    \/ (chunkQueue s = audioBlob :: chunkQueue s'
        /\ timeouts s = S (timeouts s'))
    \/ (e = RecorderStop
        /\ createCompleteAudioFile s = Some audioBlob
        /\ 1000 < size audioBlob
        /\ chunkQueue s' = chunkQueue s /\ timeouts s' = timeouts s) ->
    Dispatch e s s'.

(** The flag and the environment agree exactly: either the flag is down and
    nothing is in flight, or it is up and the one request in flight is the
    last one issued. *)
Definition flight_exact (s : State) : Prop :=
  (isProcessing s = false /\ inFlight s = [])
  \/ (isProcessing s = true
      /\ exists older request,
           inFlight s = [request] /\ transcribeCalls s = older ++ [request]).

(** A payload that waits while nothing is in flight has a drain timer
    pending. *)
Definition drain_pending (s : State) : Prop :=
  isProcessing s = false -> chunkQueue s <> [] -> 0 < timeouts s.

(** One reply and one timer for each of the given replies. *)
Fixpoint settle (rs : list Reply) : list Event :=
  match rs with
  | [] => []
  | r :: rest => TranscribeReplied 0 r :: TimeoutFired :: settle rest
  end.


(** The guard and the environment agree: [sessionStarting] is up exactly
    while one start request awaits its reply. *)
Definition start_exact (s : State) : Prop :=
  startPending s = (if sessionStarting s then 1 else 0).

Definition is_start_event (e : Event) : bool :=
  match e with
  | StartSessionCalled | StartSessionReplied _ => true
  | _ => false
  end.

(** A request body as the service gets it: labelled webm/opus, and of more
    than 1000 bytes. *)
Definition sound (p : Blob) : Prop :=
  blob_type p = webm_opus /\ 1000 < size p.

Definition sound_state (s : State) : Prop :=
  Forall sound (chunkQueue s) /\ Forall sound (sent s).

(** The events of the dispatch pipeline: a segment delivered, the recorder
    stopped, a /transcribe reply, a drain timer.  The others (the recorder's
    start and error events, the calls and replies of [startNewSession] with
    what [handleMicClick] does after them) write the transcript
    themselves. *)
Definition pipeline_event (e : Event) : bool :=
  match e with
  | DataAvailable _ | RecorderStop | TranscribeReplied _ _ | TimeoutFired =>
      true
  | _ => false
  end.

Definition is_ok_reply (e : Event) : bool :=
  match e with
  | TranscribeReplied _ (OkJson _) => true
  | _ => false
  end.

(** All the accumulated audio is in a payload that was sent or waits. *)
Definition audio_kept (s : State) : Prop :=
  audioChunks s = []
  \/ In (newBlob (audioChunks s) webm_opus) (sent s ++ chunkQueue s).

(** The segment an event delivers, if it is one that is kept. *)
Definition accepted_arrival (e : Event) : option Blob :=
  match e with
  | DataAvailable data => if accepted data then Some data else None
  | _ => None
  end.

(** ** The click handler and what it drives *)

(** The candidates of [handleMicClick], in its order of preference. *)
Definition mimeTypes : list jsstring :=
  [lit "audio/webm;codecs=opus"; lit "audio/mp4;codecs=mp4a.40.2";
   lit "audio/wav"; lit "audio/webm"; lit "audio/mp4"].

(** The loop over the candidates: the first one that is empty or supported
    is taken and the loop left; [selectedMimeType] starts as the empty
    string. *)
Fixpoint selectMimeType (isTypeSupported : jsstring -> bool)
    (candidates : list jsstring) : jsstring :=
  match candidates with
  | [] => []
  | mimeType :: rest =>
      if negb (truthy mimeType) || isTypeSupported mimeType then mimeType
      else selectMimeType isTypeSupported rest
  end.

(** [selectedMimeType ? { mimeType: selectedMimeType } : {}]: the option the
    recorder is made with, if any. *)
Definition recorderOptions (selectedMimeType : jsstring) : option jsstring :=
  if truthy selectedMimeType then Some selectedMimeType else None.

(** [MediaRecorder.state]; the component never pauses a recorder. *)
Inductive RecorderState := Inactive | Recording.

(** The page: the pipeline state, the two pieces of React state the pipeline
    does not read, the recorder behind [mediaRecorderRef] with the options
    it was made with, and what the click handler has asked of the browser. *)
Record Page := mkPage {
  component : State;
  isConnected : bool;
  isRecording : bool;
  mediaRecorder : option (RecorderState * option jsstring);
  healthCalls : nat;    (* GET /health issued *)
  mediaCalls : nat;     (* getUserMedia calls *)
  sessionTimers : nat   (* pending setTimeout(..., 1000) callbacks *)
}.

Definition set_component (v : State) (p : Page) : Page :=
  mkPage v (isConnected p) (isRecording p) (mediaRecorder p) (healthCalls p)
    (mediaCalls p) (sessionTimers p).

Definition set_isConnected (v : bool) (p : Page) : Page :=
  mkPage (component p) v (isRecording p) (mediaRecorder p) (healthCalls p)
    (mediaCalls p) (sessionTimers p).

Definition set_isRecording (v : bool) (p : Page) : Page :=
  mkPage (component p) (isConnected p) v (mediaRecorder p) (healthCalls p)
    (mediaCalls p) (sessionTimers p).

Definition set_mediaRecorder (v : option (RecorderState * option jsstring))
    (p : Page) : Page :=
  mkPage (component p) (isConnected p) (isRecording p) v (healthCalls p)
    (mediaCalls p) (sessionTimers p).

Definition set_healthCalls (v : nat) (p : Page) : Page :=
  mkPage (component p) (isConnected p) (isRecording p) (mediaRecorder p) v
    (mediaCalls p) (sessionTimers p).

Definition set_mediaCalls (v : nat) (p : Page) : Page :=
  mkPage (component p) (isConnected p) (isRecording p) (mediaRecorder p)
    (healthCalls p) v (sessionTimers p).

Definition set_sessionTimers (v : nat) (p : Page) : Page :=
  mkPage (component p) (isConnected p) (isRecording p) (mediaRecorder p)
    (healthCalls p) (mediaCalls p) v.

Definition setTranscript (v : jsstring) (p : Page) : Page :=
  set_component (set_transcript v (component p)) p.

(** The page as it is first rendered. *)
Definition first_page : Page := mkPage initial false false None 0 0 0.

(** The values of React state a handler sees: those of the render that
    made it, whatever has been set since. *)
Record Closure := mkClosure {
  seen_isConnected : bool;
  seen_isRecording : bool;
  seen_currentSession : option jsstring
}.

Definition render (p : Page) : Closure :=
  mkClosure (isConnected p) (isRecording p) (currentSession (component p)).

(** Truthiness of a session id that may be null. *)
Definition truthy_id (id : option jsstring) : bool :=
  match id with
  | Some v => truthy v
  | None => false
  end.

Inductive HealthReply :=
| HealthOk
| HealthNotOk (status : nat)
| HealthRejected.

Inductive MediaReply :=
| MediaGranted
| MediaDenied.

(** [testConnection] from the reply on: an ok response raises
    [isConnected], a rejected fetch lowers it, any other response leaves
    it. *)
Definition testConnection_resume (r : HealthReply) (p : Page) : Page :=
  match r with
  | HealthOk => set_isConnected true p
  | HealthNotOk _ => p
  | HealthRejected => set_isConnected false p
  end.

(** An [async] function at rest: finished, or suspended at one of its
    awaits with the page as it left it and what it does with the answer and
    the page it finds then. *)
Inductive Task :=
| Done (p : Page)
| AwaitHealth (p : Page) (k : HealthReply -> Page -> Task)
| AwaitStart (p : Page) (k : StartReply -> Page -> Task)
| AwaitMedia (p : Page) (k : MediaReply -> Page -> Task).

(** The [try] around [getUserMedia]: on success the recorder is made with
    the selected type, started with 5-second slices, and [isRecording] set;
    on failure the [catch] writes the transcript. *)
Definition requestMicrophone (isTypeSupported : jsstring -> bool) (p : Page)
  : Task :=
  AwaitMedia (set_mediaCalls (S (mediaCalls p)) p)
    (fun r p =>
       match r with
       | MediaGranted =>
           let selectedMimeType := selectMimeType isTypeSupported mimeTypes in
           let options := recorderOptions selectedMimeType in
           let p := set_mediaRecorder (Some (Recording, options)) p in
           Done (set_isRecording true p)
       | MediaDenied =>
           Done (setTranscript
                   (lit "Microphone access denied or not available") p)
       end).

(** The branch that stops: the recorder is stopped unless it is missing or
    inactive, [isRecording] lowered, and the timer set that forgets the
    session a second later. *)
Definition stopRecording (p : Page) : Task :=
  let p :=
    match mediaRecorder p with
    | Some (Recording, options) =>
        set_mediaRecorder (Some (Inactive, options)) p
    | Some (Inactive, _) | None => p
    end in
  let p := set_isRecording false p in
  Done (set_sessionTimers (S (sessionTimers p)) p).

(** [handleMicClick] past the connection test. *)
Definition clicked (c : Closure) (isTypeSupported : jsstring -> bool)
    (p : Page) : Task :=
  if negb (seen_isRecording c) then
    if negb (truthy_id (seen_currentSession c))
       && negb (sessionStarting (component p)) then
      match startNewSession (component p) with
      | (s, Suspended) =>
          AwaitStart (set_component s p)
            (fun r p =>
               let waiting :=
                 set_startPending (pred (startPending (component p)))
                   (component p) in
               let (s, sessionId) := startNewSession_resume r waiting in
               let p := set_component s p in
               if negb (truthy_id sessionId) then
                 Done (setTranscript
                         (lit "Failed to start recording session") p)
               else requestMicrophone isTypeSupported p)
      | (s, Returned sessionId) =>
          let p := set_component s p in
          if negb (truthy_id sessionId) then
            Done (setTranscript (lit "Failed to start recording session") p)
          else requestMicrophone isTypeSupported p
      end
    else requestMicrophone isTypeSupported p
  else stopRecording p.

Definition handleMicClick (c : Closure) (isTypeSupported : jsstring -> bool)
    (p : Page) : Task :=
  if negb (seen_isConnected c) then
    AwaitHealth (set_healthCalls (S (healthCalls p)) p)
      (fun r p =>
         let p := testConnection_resume r p in
         if negb (seen_isConnected c) then
           Done (setTranscript (lit "Cannot connect to backend server") p)
         else clicked c isTypeSupported p)
  else clicked c isTypeSupported p.

(** The callback of the one-second timer: the session is forgotten. *)
Definition sessionTimerFired (p : Page) : Page :=
  match sessionTimers p with
  | S n =>
      set_component (set_currentSession None (component p))
        (set_sessionTimers n p)
  | 0 => p
  end.

(** An event of the pipeline, on the page. *)
Definition on_page (e : Event) (p : Page) : Page :=
  set_component (step e (component p)) p.

(** The page a task has reached. *)
Definition page_of (t : Task) : Page :=
  match t with
  | Done p | AwaitHealth p _ | AwaitStart p _ | AwaitMedia p _ => p
  end.

Inductive Answer :=
| Health (r : HealthReply)
| Start (r : StartReply)
| Media (r : MediaReply).

(** The task once the answer it waits for has come, resumed on the page as
    it is then; an answer it does not wait for leaves it. *)
Definition answer (a : Answer) (now : Page) (t : Task) : Task :=
  match t, a with
  | AwaitHealth _ k, Health r => k r now
  | AwaitStart _ k, Start r => k r now
  | AwaitMedia _ k, Media r => k r now
  | _, _ => t
  end.

(** What a task waits for. *)
Inductive Waits := ForNothing | ForHealth | ForStart | ForMedia.

Definition waits (t : Task) : Waits :=
  match t with
  | Done _ => ForNothing
  | AwaitHealth _ _ => ForHealth
  | AwaitStart _ _ => ForStart
  | AwaitMedia _ _ => ForMedia
  end.

(** A reply to a start request that gives the click no session: a failure,
    or an id that is the empty string. *)
Definition gives_no_session (r : StartReply) : bool :=
  match r with
  | StartOk session_id => negb (truthy session_id)
  | StartRejected | StartNotOk _ => true
  end.

(** ** What is rendered *)

(** [disabled={!isConnected || sessionStarting.current}] *)
Definition buttonDisabled (p : Page) : bool :=
  negb (isConnected p) || sessionStarting (component p).

Definition statusText (p : Page) : jsstring :=
  if negb (isConnected p) then lit "Connect to server first"
  else if sessionStarting (component p) then lit "Starting session..."
  else if isRecording p then lit "Recording... Click to stop"
  else lit "Click to start recording".

(** [{transcript || 'Transcript will appear here...'}] *)
Definition transcriptShown (p : Page) : jsstring :=
  if truthy (transcript (component p)) then transcript (component p)
  else lit "Transcript will appear here...".

(** * The first MicRecorder: record, stop, send once

    The component of src/Vocuro-UI/src/components/MicRecorder.jsx keeps
    every segment of a recording and sends them as one file when the
    recorder stops. *)

Module SimpleRecorder.

(** The body of a /transcribe reply that parses: its [text] and [error]
    fields, where present. *)
Inductive Reply :=
| Parsed (text error : option jsstring)
| Failed.

Record State := mkState {
  isRecording : bool;
  transcript : jsstring;
  mediaRecorderRef : bool;        (* a recorder has been stored *)
  audioChunksRef : list Blob;
  awaited : nat;                  (* /transcribe calls awaiting their reply *)
  transcribeCalls : list Blob     (* every body posted, oldest first *)
}.

Definition initial : State := mkState false [] false [] 0 [].

Inductive Event :=
| MicrophoneGranted
| MicrophoneDenied
| StopClicked
| DataAvailable (data : Blob)
| RecorderStopped
| Replied (r : Reply).

(** [handleMicClick] from the answer of [getUserMedia] on. *)
Definition granted (s : State) : State :=
  mkState true (transcript s) true [] (awaited s) (transcribeCalls s).

Definition denied (s : State) : State :=
  mkState (isRecording s) (lit "Microphone access denied.")
    (mediaRecorderRef s) (audioChunksRef s) (awaited s) (transcribeCalls s).

(** The branch of [handleMicClick] that stops; with no recorder stored the
    call of [stop] on null throws and the handler ends there. *)
Definition stopClicked (s : State) : State :=
  if mediaRecorderRef s then
    mkState false (transcript s) (mediaRecorderRef s) (audioChunksRef s)
      (awaited s) (transcribeCalls s)
  else s.

Definition ondataavailable (data : Blob) (s : State) : State :=
  mkState (isRecording s) (transcript s) (mediaRecorderRef s)
    (audioChunksRef s ++ [data]) (awaited s) (transcribeCalls s).

(** [onstop] up to the awaited fetch. *)
Definition onstop (s : State) : State :=
  let audioBlob := newBlob (audioChunksRef s) (lit "audio/webm") in
  mkState (isRecording s) (transcript s) (mediaRecorderRef s)
    (audioChunksRef s) (S (awaited s)) (transcribeCalls s ++ [audioBlob]).

(** What [onstop] writes once the reply is there. *)
Definition shown (r : Reply) : jsstring :=
  match r with
  | Parsed text error =>
      if truthy_id text then match text with Some t => t | None => [] end
      else
        lit "Error: "
        ++ (if truthy_id error
            then match error with Some e => e | None => [] end
            else lit "Unknown error")
  | Failed => lit "Failed to reach backend."
  end.

Definition onstop_resume (r : Reply) (s : State) : State :=
  mkState (isRecording s) (shown r) (mediaRecorderRef s) (audioChunksRef s)
    (pred (awaited s)) (transcribeCalls s).

Definition step (e : Event) (s : State) : State :=
  match e with
  | MicrophoneGranted => granted s
  | MicrophoneDenied => denied s
  | StopClicked => stopClicked s
  | DataAvailable data => ondataavailable data s
  | RecorderStopped => onstop s
  | Replied r =>
      match awaited s with
      | S _ => onstop_resume r s
      | 0 => s
      end
  end.

Definition run (evs : list Event) (s : State) : State :=
  fold_left (fun s e => step e s) evs s.

End SimpleRecorder.

(** The segments a sequence of events of the first MicRecorder delivers,
    in order. *)
Definition simple_delivered (evs : list SimpleRecorder.Event) : list Blob :=
  flat_map
    (fun e =>
       match e with
       | SimpleRecorder.DataAvailable data => [data]
       | _ => []
       end) evs.

(** Events that can come between the grant of the microphone and the stop
    of the recorder it started: anything but another grant and a
    recorder's stop. *)
Definition simple_within_recording (e : SimpleRecorder.Event) : bool :=
  match e with
  | SimpleRecorder.MicrophoneGranted | SimpleRecorder.RecorderStopped => false
  | _ => true
  end.

(** * Properties *)

(** Evaluates the setters and projections of a state built from known
    fields, leaving the blobs alone. *)
Ltac normal_state :=
  cbv [sendChunkToBackend initial hd tl app
       set_transcript set_currentSession set_chunkQueue set_isProcessing
       set_sessionStarting set_chunkCounter set_audioChunks set_inFlight
       set_timeouts set_startPending set_transcribeCalls set_startCalls
       set_submitted set_milestoneLogs
       transcript currentSession chunkQueue isProcessing sessionStarting
       chunkCounter audioChunks inFlight timeouts startPending
       transcribeCalls startCalls submitted milestoneLogs].

(** ** Strings *)

Lemma trimStart_nil_iff (t : jsstring) :
  trimStart t = [] <-> forallb is_ws t = true.
Proof.
  induction t as [|c r IH]; simpl.
  - tauto.
  - destruct (is_ws c); simpl.
    + exact IH.
    + split; discriminate.
Qed.

Lemma forallb_rev (A : Type) (f : A -> bool) (l : list A) :
  forallb f (rev l) = forallb f l.
Proof.
  induction l as [|x l IH]; simpl; trivial.
  rewrite forallb_app, IH; simpl.
  rewrite andb_true_r. apply andb_comm.
Qed.

Lemma trimStart_forallb (t : jsstring) :
  forallb is_ws t = false -> forallb is_ws (trimStart t) = false.
Proof.
  induction t as [|c r IH]; simpl; trivial.
  destruct (is_ws c) eqn:E; simpl; trivial.
  now rewrite E.
Qed.

Lemma trim_blank (t : jsstring) :
  truthy (trim t) = negb (forallb is_ws t).
Proof.
  unfold trim, trimEnd.
  destruct (forallb is_ws t) eqn:E.
  - apply trimStart_nil_iff in E. rewrite E. reflexivity.
  - apply trimStart_forallb in E.
    rewrite <- forallb_rev in E.
    destruct (trimStart (rev (trimStart t))) as [|c r] eqn:E'.
    + apply trimStart_nil_iff in E'. congruence.
    + simpl. destruct (rev r); reflexivity.
Qed.

Lemma truthy_trim (t : jsstring) : truthy (trim t) = true -> truthy t = true.
Proof.
  destruct t; [discriminate | reflexivity].
Qed.

Lemma trimStart_head (t : jsstring) :
  match trimStart t with
  | [] => True
  | c :: _ => is_ws c = false
  end.
Proof.
  induction t as [|c r IH]; simpl; trivial.
  destruct (is_ws c) eqn:E; trivial.
Qed.

Lemma trimStart_suffix (t : jsstring) : exists p, t = p ++ trimStart t.
Proof.
  induction t as [|c r [p IH]]; simpl.
  - now exists [].
  - destruct (is_ws c).
    + exists (c :: p). simpl. now f_equal.
    + now exists [].
Qed.

Lemma trimEnd_prefix (u : jsstring) : exists q, u = trimEnd u ++ q.
Proof.
  unfold trimEnd.
  destruct (trimStart_suffix (rev u)) as [p Hp].
  exists (rev p).
  rewrite <- rev_app_distr, <- Hp.
  symmetry. apply rev_involutive.
Qed.

Lemma trim_head (t : jsstring) :
  match trim t with
  | [] => True
  | c :: _ => is_ws c = false
  end.
Proof.
  unfold trim.
  destruct (trimEnd_prefix (trimStart t)) as [q Hq].
  pose proof (trimStart_head t) as Hh.
  destruct (trimEnd (trimStart t)) as [|c r]; trivial.
  rewrite Hq in Hh. exact Hh.
Qed.

(** ** Accessors through the setters and the dispatch function *)

Lemma sendChunkToBackend_busy (b : Blob) (s : State) :
  isProcessing s = true -> sendChunkToBackend b s = s.
Proof.
  intros H. unfold sendChunkToBackend. now rewrite H.
Qed.

Lemma sendChunkToBackend_audioChunks (b : Blob) (s : State) :
  audioChunks (sendChunkToBackend b s) = audioChunks s.
Proof.
  unfold sendChunkToBackend. destruct (isProcessing s); reflexivity.
Qed.

Lemma sendChunkToBackend_submitted (b : Blob) (s : State) :
  submitted (sendChunkToBackend b s) = submitted s.
Proof.
  unfold sendChunkToBackend. destruct (isProcessing s); reflexivity.
Qed.

Lemma handleResult_audioChunks (r : TranscribeResult) (s : State) :
  audioChunks (handleResult r s) = audioChunks s.
Proof.
  unfold handleResult.
  destruct (text r) as [t|]; trivial.
  destruct (truthy t && truthy (trim t)); trivial.
  destruct (milestone r); reflexivity.
Qed.

Lemma handleResult_submitted (r : TranscribeResult) (s : State) :
  submitted (handleResult r s) = submitted s.
Proof.
  unfold handleResult.
  destruct (text r) as [t|]; trivial.
  destruct (truthy t && truthy (trim t)); trivial.
  destruct (milestone r); reflexivity.
Qed.

Lemma ondataavailable_accepted (data : Blob) (s : State) :
  accepted data = true ->
  audioChunks (ondataavailable data s) = audioChunks s ++ [data].
Proof.
  unfold accepted, ondataavailable. intros ->.
  unfold createCompleteAudioFile; simpl.
  destruct (audioChunks s ++ [data]) eqn:E.
  - now destruct (audioChunks s).
  - rewrite <- E. simpl.
    destruct (negb (isProcessing s)); trivial.
    destruct (shift (chunkQueue s ++ _)) as [[chunk|] rest]; trivial.
    now rewrite sendChunkToBackend_audioChunks.
Qed.

Lemma ondataavailable_rejected (data : Blob) (s : State) :
  accepted data = false -> ondataavailable data s = s.
Proof.
  unfold accepted, ondataavailable. now intros ->.
Qed.

Lemma createCompleteAudioFile_some (s : State) :
  audioChunks s <> [] ->
  createCompleteAudioFile s = Some (newBlob (audioChunks s) webm_opus).
Proof.
  unfold createCompleteAudioFile. now destruct (audioChunks s).
Qed.

(** ** TranscriptAssembler *)

(** C8.  A reply whose text is empty or whitespace-only leaves the transcript
    as it is; any other text is trimmed and appended, after exactly one space
    when the transcript is not empty (the appended text never begins with
    whitespace).  From the empty transcript, "" then "hello" gives "hello",
    and "hello" then "world" gives "hello world". *)
Theorem result_text_joined :
  (forall (t : jsstring) (m : bool) (s : State),
      transcript (sendChunkToBackend_resume (OkJson (mkResult (Some t) m)) s) =
        (if forallb is_ws t then transcript s
         else if truthy (transcript s)
              then transcript s ++ lit " " ++ trim t
              else trim t)
      /\ match trim t with
         | [] => forallb is_ws t = true
         | c :: _ => is_ws c = false
         end)
  /\ (let onResult t :=
        sendChunkToBackend_resume (OkJson (mkResult (Some (lit t)) false)) in
      transcript (onResult "hello"%string (onResult ""%string initial))
        = lit "hello"
      /\ transcript (onResult "world"%string (onResult "hello"%string initial))
        = lit "hello world").
Proof.
  split; [|split; reflexivity].
  intros t m s. split.
  - unfold sendChunkToBackend_resume, handleResult; simpl.
    pose proof (trim_blank t) as B.
    destruct (forallb is_ws t); simpl in B.
    + rewrite B, andb_false_r. reflexivity.
    + rewrite B, (truthy_trim t B). simpl.
      destruct m; reflexivity.
  - pose proof (trim_blank t) as B. pose proof (trim_head t) as Hh.
    destruct (trim t); simpl in B.
    + now destruct (forallb is_ws t).
    + exact Hh.
Qed.

(** ** DispatchQueue: the guard on [isProcessing] *)

(** C10.  A payload handed to [sendChunkToBackend] while a request is in
    flight is dropped: no request goes out, the pending queue is as it was,
    the whole state is as it was, and so whatever happens later happens as
    if the call had never been made. *)
Theorem busy_payload_discarded (audioBlob : Blob) (s : State)
    (busy : isProcessing s = true) :
  sendChunkToBackend audioBlob s = s
  /\ transcribeCalls (sendChunkToBackend audioBlob s) = transcribeCalls s
  /\ inFlight (sendChunkToBackend audioBlob s) = inFlight s
  /\ chunkQueue (sendChunkToBackend audioBlob s) = chunkQueue s
  /\ forall later : list Event,
       run later (sendChunkToBackend audioBlob s) = run later s.
Proof.
  rewrite (sendChunkToBackend_busy audioBlob s busy).
  repeat split; reflexivity.
Qed.

Lemma busy_payload_discarded_witness :
  let s := ondataavailable (segment 1500 x00) initial in
  isProcessing s = true
  /\ sendChunkToBackend (segment 2000 x01) s = s.
Proof.
  split; [reflexivity|].
  apply (busy_payload_discarded (segment 2000 x01)
           (ondataavailable (segment 1500 x00) initial)).
  reflexivity.
Defined.

(** ** ChunkAccumulator *)

Lemma payloads_step (data : Blob) (s : State) :
  accepted data = true ->
  createCompleteAudioFile (ondataavailable data s)
    = Some (newBlob (audioChunks s ++ [data]) webm_opus).
Proof.
  intros H.
  rewrite createCompleteAudioFile_some; rewrite (ondataavailable_accepted _ s H).
  - reflexivity.
  - now destruct (audioChunks s).
Qed.

Lemma newBlob_snoc (chunks : list Blob) (data : Blob) (type : jsstring) :
  blob_data (newBlob (chunks ++ [data]) type)
    = blob_data (newBlob chunks type) ++ blob_data data.
Proof.
  unfold newBlob; simpl.
  rewrite map_app, concat_app; simpl.
  now rewrite app_nil_r.
Qed.

(** C4.  Over any sequence of accepted segments, the payload made after
    segment N+1 is the payload made after segment N followed by exactly the
    bytes of segment N+1; the earlier payload is a prefix of the later. *)
Theorem payload_extends_previous (segments : list Blob) (s : State) (N : nat)
    (data : Blob)
    (valid : forallb accepted segments = true)
    (arrives : nth_error segments (S N) = Some data) :
  exists previous current : Blob,
    nth_error (payloads segments s) N = Some (Some previous)
    /\ nth_error (payloads segments s) (S N) = Some (Some current)
    /\ blob_data current = blob_data previous ++ blob_data data
    /\ firstn (size previous) (blob_data current) = blob_data previous.
Proof.
  revert s N valid arrives.
  induction segments as [|d0 rest IH]; intros s N valid arrives.
  - discriminate.
  - simpl in valid. apply andb_prop in valid as [V0 Vrest].
    destruct N as [|N].
    + destruct rest as [|d1 rest]; [discriminate|].
      simpl in arrives. injection arrives as ->.
      simpl in Vrest. apply andb_prop in Vrest as [V1 _].
      exists (newBlob (audioChunks s ++ [d0]) webm_opus),
             (newBlob ((audioChunks s ++ [d0]) ++ [data]) webm_opus).
      simpl payloads.
      rewrite (payloads_step _ s V0), (payloads_step _ _ V1).
      rewrite (ondataavailable_accepted _ s V0).
      repeat split.
      * apply newBlob_snoc.
      * rewrite newBlob_snoc. unfold size.
        rewrite firstn_app, Nat.sub_diag, firstn_all. simpl.
        apply app_nil_r.
    + simpl in arrives.
      destruct (IH (ondataavailable d0 s) N Vrest arrives)
        as (previous & current & H1 & H2 & H3 & H4).
      exists previous, current. repeat split; assumption.
Qed.

Lemma payload_extends_previous_witness :
  exists previous current : Blob,
    nth_error (payloads [segment 1200 x01; segment 1500 x02] initial) 0
      = Some (Some previous)
    /\ nth_error (payloads [segment 1200 x01; segment 1500 x02] initial) 1
      = Some (Some current)
    /\ blob_data current = blob_data previous ++ blob_data (segment 1500 x02)
    /\ firstn (size previous) (blob_data current) = blob_data previous.
Proof.
  apply (payload_extends_previous
           [segment 1200 x01; segment 1500 x02] initial 0);
    reflexivity.
Defined.

Lemma drain_audioChunks (s : State) : audioChunks (drain s) = audioChunks s.
Proof.
  unfold drain.
  destruct (_ && _); trivial.
  destruct (shift (chunkQueue s)) as [[c|] r]; trivial.
  now rewrite sendChunkToBackend_audioChunks.
Qed.

Lemma drain_submitted (s : State) : submitted (drain s) = submitted s.
Proof.
  unfold drain.
  destruct (_ && _); trivial.
  destruct (shift (chunkQueue s)) as [[c|] r]; trivial.
  now rewrite sendChunkToBackend_submitted.
Qed.

Lemma ondataavailable_submitted (data : Blob) (s : State) :
  accepted data = true ->
  submitted (ondataavailable data s)
    = submitted s ++ [newBlob (audioChunks s ++ [data]) webm_opus].
Proof.
  unfold accepted, ondataavailable. intros ->.
  unfold createCompleteAudioFile; simpl.
  destruct (audioChunks s ++ [data]) eqn:E.
  - now destruct (audioChunks s).
  - rewrite <- E. simpl.
    destruct (negb (isProcessing s)); trivial.
    destruct (shift (chunkQueue s ++ _)) as [[chunk|] rest]; trivial.
    now rewrite sendChunkToBackend_submitted.
Qed.

Lemma step_audioChunks (e : Event) (s : State) :
  begins_session e = false ->
  audioChunks (step e s) = audioChunks s ++ kept e.
Proof.
  intros H. destruct e as [data| | | |i r| | |r]; simpl in *;
    try discriminate; try (symmetry; apply app_nil_r).
  - destruct (accepted data) eqn:A.
    + now apply ondataavailable_accepted.
    + rewrite (ondataavailable_rejected _ s A). symmetry; apply app_nil_r.
  - rewrite app_nil_r. unfold onstop.
    destruct (createCompleteAudioFile s) as [f|]; trivial.
    destruct (1000 <? size f); trivial.
    now rewrite sendChunkToBackend_audioChunks.
  - rewrite app_nil_r.
    destruct (nth_error (inFlight s) i); trivial.
    unfold sendChunkToBackend_resume; simpl.
    destruct r; trivial. now rewrite handleResult_audioChunks.
  - rewrite app_nil_r. destruct (timeouts s); trivial.
    now rewrite drain_audioChunks.
  - rewrite app_nil_r. unfold startNewSession.
    destruct (sessionStarting s); reflexivity.
  - rewrite app_nil_r. destruct (startPending s); trivial.
    destruct r; try discriminate; reflexivity.
Qed.

Lemma step_submitted (e : Event) (s : State) :
  submitted (step e s) = submitted s ++ handed e s.
Proof.
  destruct e as [data| | | |i r| | |r]; simpl;
    try (symmetry; apply app_nil_r).
  - destruct (accepted data) eqn:A.
    + now apply ondataavailable_submitted.
    + rewrite (ondataavailable_rejected _ s A). symmetry; apply app_nil_r.
  - unfold onstop.
    destruct (createCompleteAudioFile s) as [f|];
      [|symmetry; apply app_nil_r].
    destruct (1000 <? size f); [|symmetry; apply app_nil_r].
    now rewrite sendChunkToBackend_submitted.
  - rewrite app_nil_r.
    destruct (nth_error (inFlight s) i); trivial.
    unfold sendChunkToBackend_resume; simpl.
    destruct r; trivial. now rewrite handleResult_submitted.
  - rewrite app_nil_r. destruct (timeouts s); trivial.
    now rewrite drain_submitted.
  - rewrite app_nil_r. unfold startNewSession.
    destruct (sessionStarting s); reflexivity.
  - rewrite app_nil_r. destruct (startPending s); trivial.
    destruct r; reflexivity.
Qed.

Lemma newBlob_holds (base rest : list Blob) (data : Blob) (type : jsstring) :
  holds (concat (map blob_data base)) data (newBlob (base ++ data :: rest) type).
Proof.
  exists (concat (map blob_data rest)).
  unfold newBlob; simpl.
  now rewrite map_app, concat_app.
Qed.

Lemma handed_holds (e : Event) (s : State) (base rest : list Blob)
    (data : Blob) :
  audioChunks s = base ++ data :: rest ->
  Forall (holds (concat (map blob_data base)) data) (handed e s).
Proof.
  intros E.
  destruct e as [d| | | |i r| | |r]; simpl; try constructor.
  - destruct (accepted d); constructor; [|constructor].
    rewrite E, <- app_assoc. simpl. apply newBlob_holds.
  - rewrite createCompleteAudioFile_some by (rewrite E; now destruct base).
    destruct (1000 <? _); constructor; [|constructor].
    rewrite E. apply newBlob_holds.
Qed.

Lemma run_cons (e : Event) (evs : list Event) (s : State) :
  run (e :: evs) s = run evs (step e s).
Proof. reflexivity. Qed.

Lemma run_within_session (later : list Event) :
  forallb (fun e => negb (begins_session e)) later = true ->
  forall (s : State) (base rest : list Blob) (data : Blob),
    audioChunks s = base ++ data :: rest ->
    (exists rest', audioChunks (run later s) = base ++ data :: rest')
    /\ exists newer,
         submitted (run later s) = submitted s ++ newer
         /\ Forall (holds (concat (map blob_data base)) data) newer.
Proof.
  induction later as [|e later IH]; intros Hs s base rest data E.
  - split; [now exists rest|].
    exists []. split; [symmetry; apply app_nil_r | constructor].
  - simpl in Hs. apply andb_prop in Hs as [He Hl].
    apply negb_true_iff in He.
    rewrite run_cons.
    assert (E' : audioChunks (step e s) = base ++ data :: (rest ++ kept e)).
    { rewrite (step_audioChunks e s He), E, <- app_assoc. reflexivity. }
    destruct (IH Hl (step e s) base _ data E') as [Ha (newer & Hn & Hf)].
    split; [exact Ha|].
    exists (handed e s ++ newer). split.
    + rewrite Hn, step_submitted. symmetry; apply app_assoc.
    + apply Forall_app. split; [|exact Hf].
      now apply handed_holds with (rest := rest).
Qed.

(** ** DispatchQueue: one request at a time *)

Lemma sendChunkToBackend_flight (b : Blob) (s : State) :
  flight_ok s -> flight_ok (sendChunkToBackend b s).
Proof.
  intros H. unfold sendChunkToBackend.
  destruct (isProcessing s) eqn:P; [exact H|].
  destruct H as [H1 _].
  split; simpl.
  - discriminate.
  - rewrite (H1 P). simpl. lia.
Qed.

Lemma flight_ok_queue (q : list Blob) (s : State) :
  flight_ok s -> flight_ok (set_chunkQueue q s).
Proof. now intros H. Qed.

Lemma drain_flight (s : State) : flight_ok s -> flight_ok (drain s).
Proof.
  intros H. unfold drain.
  destruct (_ && _); trivial.
  destruct (shift (chunkQueue s)) as [[c|] r]; trivial.
  now apply sendChunkToBackend_flight, flight_ok_queue.
Qed.

Lemma handleResult_flight (r : TranscribeResult) (s : State) :
  isProcessing (handleResult r s) = isProcessing s
  /\ inFlight (handleResult r s) = inFlight s.
Proof.
  unfold handleResult.
  destruct (text r) as [t|]; [|now split].
  destruct (truthy t && truthy (trim t)); [|now split].
  destruct (milestone r); now split.
Qed.

Lemma remove_nth_single (A : Type) (i : nat) (l : list A) (x : A) :
  nth_error l i = Some x -> length l <= 1 -> remove_nth i l = [].
Proof.
  destruct l as [|y [|z l]]; simpl; intros Hn Hl.
  - now destruct i.
  - destruct i as [|i]; trivial. now destruct i.
  - lia.
Qed.

Lemma step_flight (e : Event) (s : State) : flight_ok s -> flight_ok (step e s).
Proof.
  intros H. destruct e as [data| | | |i r| | |r]; simpl.
  - unfold ondataavailable.
    destruct (1000 <? size data); trivial.
    destruct (createCompleteAudioFile _); trivial.
    cbn [isProcessing set_submitted set_chunkQueue set_audioChunks].
    destruct (negb (isProcessing s)); [|exact H].
    destruct (shift _) as [[c|] q]; [|exact H].
    apply sendChunkToBackend_flight. exact H.
  - exact H.
  - unfold onstop.
    destruct (createCompleteAudioFile s) as [f|]; trivial.
    destruct (1000 <? size f); trivial.
    apply sendChunkToBackend_flight. exact H.
  - exact H.
  - destruct (nth_error (inFlight s) i) as [req|] eqn:E; trivial.
    destruct H as [_ H2].
    unfold sendChunkToBackend_resume, flight_ok; simpl.
    assert (F : inFlight
                  match r with
                  | OkJson result =>
                      handleResult result
                        (set_inFlight (remove_nth i (inFlight s)) s)
                  | _ => set_inFlight (remove_nth i (inFlight s)) s
                  end = []).
    { destruct r; simpl; try now apply remove_nth_single with req.
      rewrite (proj2 (handleResult_flight _ _)). simpl.
      now apply remove_nth_single with req. }
    rewrite F. simpl. split; [trivial | lia].
  - destruct (timeouts s); trivial.
    apply drain_flight. exact H.
  - unfold startNewSession. destruct (sessionStarting s); exact H.
  - destruct (startPending s); trivial.
    destruct r; exact H.
Qed.

Lemma run_flight (evs : list Event) (s : State) :
  flight_ok s -> flight_ok (run evs s).
Proof.
  revert s. induction evs as [|e evs IH]; intros s H; trivial.
  rewrite run_cons. apply IH, step_flight, H.
Qed.

(** Whatever the recorder, the timers and the network do, at most one
    /transcribe request awaits its reply. *)
Lemma single_flight (evs : list Event) :
  length (inFlight (run evs initial)) <= 1.
Proof.
  apply (run_flight evs (s := initial)).
  split; [reflexivity | simpl; lia].
Qed.

(** ** DispatchQueue: first in, first out *)

Lemma sendChunkToBackend_head (b : Blob) (rest : list Blob) (s : State) :
  isProcessing s = false ->
  sent (sendChunkToBackend b (set_chunkQueue rest s))
    ++ chunkQueue (sendChunkToBackend b (set_chunkQueue rest s))
  = sent s ++ b :: rest.
Proof.
  intros P. unfold sendChunkToBackend, sent; simpl. rewrite P; simpl.
  rewrite map_app, <- app_assoc. reflexivity.
Qed.

Lemma sendChunkToBackend_head_submitted (b : Blob) (rest : list Blob)
    (s : State) :
  submitted (sendChunkToBackend b (set_chunkQueue rest s)) = submitted s.
Proof. now rewrite sendChunkToBackend_submitted. Qed.

Lemma ondataavailable_busy (data : Blob) (s : State) :
  accepted data = true -> isProcessing s = true ->
  let completeFile := newBlob (audioChunks s ++ [data]) webm_opus in
  ondataavailable data s
  = set_submitted (submitted s ++ [completeFile])
      (set_chunkQueue (chunkQueue s ++ [completeFile])
         (set_audioChunks (audioChunks s ++ [data]) s)).
Proof.
  unfold accepted, ondataavailable. intros -> P.
  unfold createCompleteAudioFile; simpl.
  destruct (audioChunks s ++ [data]) eqn:E.
  - now destruct (audioChunks s).
  - rewrite <- E. simpl. now rewrite P.
Qed.

Lemma ondataavailable_idle (data : Blob) (s : State) :
  accepted data = true -> isProcessing s = false ->
  let completeFile := newBlob (audioChunks s ++ [data]) webm_opus in
  let s' :=
    set_submitted (submitted s ++ [completeFile])
      (set_chunkQueue (chunkQueue s ++ [completeFile])
         (set_audioChunks (audioChunks s ++ [data]) s)) in
  ondataavailable data s
  = sendChunkToBackend (hd completeFile (chunkQueue s'))
      (set_chunkQueue (tl (chunkQueue s')) s').
Proof.
  unfold accepted, ondataavailable. intros -> P.
  unfold createCompleteAudioFile; simpl.
  destruct (audioChunks s ++ [data]) eqn:E.
  - now destruct (audioChunks s).
  - rewrite <- E. simpl. rewrite P. simpl.
    destruct (chunkQueue s); reflexivity.
Qed.

Lemma drain_fifo (s : State) : fifo s -> fifo (drain s).
Proof.
  unfold fifo, drain. intros H.
  destruct (isProcessing s) eqn:P; [now rewrite andb_false_r|].
  destruct (chunkQueue s) as [|c q] eqn:Q; simpl; [now rewrite Q|].
  rewrite (sendChunkToBackend_head c q s P).
  now rewrite sendChunkToBackend_head_submitted.
Qed.

Lemma handleResult_fifo (r : TranscribeResult) (s : State) :
  transcribeCalls (handleResult r s) = transcribeCalls s
  /\ chunkQueue (handleResult r s) = chunkQueue s.
Proof.
  unfold handleResult.
  destruct (text r) as [t|]; [|now split].
  destruct (truthy t && truthy (trim t)); [|now split].
  destruct (milestone r); now split.
Qed.

Lemma step_fifo (e : Event) (s : State) :
  is_stop e = false -> fifo s -> fifo (step e s).
Proof.
  intros St H. destruct e as [data| | | |i r| | |r]; simpl;
    try discriminate; try exact H.
  - destruct (accepted data) eqn:A;
      [|now rewrite (ondataavailable_rejected _ s A)].
    unfold fifo in *.
    destruct (isProcessing s) eqn:P.
    + rewrite (ondataavailable_busy _ s A P). simpl.
      unfold sent in *; simpl. now rewrite app_assoc, H.
    + rewrite (ondataavailable_idle _ s A P).
      cbn [chunkQueue set_submitted set_chunkQueue set_audioChunks].
      set (cf := newBlob (audioChunks s ++ [data]) webm_opus).
      set (s' := set_submitted _ _).
      rewrite (sendChunkToBackend_head _ _ s' P).
      rewrite sendChunkToBackend_head_submitted.
      subst s'. unfold sent in *. simpl. rewrite <- H, <- app_assoc.
      f_equal. now destruct (chunkQueue s).
  - destruct (nth_error (inFlight s) i); trivial.
    unfold fifo, sent, sendChunkToBackend_resume in *; simpl.
    destruct r; simpl; trivial.
    destruct (handleResult_fifo result
                (set_inFlight (remove_nth i (inFlight s)) s)) as [-> ->].
    now rewrite handleResult_submitted.
  - destruct (timeouts s); trivial.
    now apply drain_fifo.
  - unfold startNewSession. destruct (sessionStarting s); exact H.
  - destruct (startPending s); trivial.
    destruct r; exact H.
Qed.

Lemma run_fifo (evs : list Event) (s : State) :
  forallb (fun e => negb (is_stop e)) evs = true -> fifo s -> fifo (run evs s).
Proof.
  revert s. induction evs as [|e evs IH]; intros s Hs H; trivial.
  simpl in Hs. apply andb_prop in Hs as [He Hl].
  rewrite run_cons. apply IH; trivial.
  apply step_fifo; trivial. now apply negb_true_iff.
Qed.

(** ** Only accepted segments travel *)

Lemma arrivals_accepted (evs : list Event) (data : Blob) :
  In data (arrivals evs) -> accepted data = true.
Proof.
  unfold arrivals. rewrite in_flat_map. intros (e & _ & I).
  destruct e; simpl in I; try contradiction.
  destruct (accepted data0) eqn:A; [|contradiction].
  destruct I as [<-|[]]. exact A.
Qed.

Lemma made_of_mono (arrived arrived' : list Blob) (p : Blob) :
  incl arrived arrived' -> made_of arrived p -> made_of arrived' p.
Proof.
  intros I (chunks & C & ->). exists chunks. split; trivial.
  now apply incl_tran with arrived.
Qed.

Lemma clean_mono (arrived arrived' : list Blob) (s : State) :
  incl arrived arrived' -> clean arrived s -> clean arrived' s.
Proof.
  intros I (A & Q & S). repeat split.
  - now apply incl_tran with arrived.
  - revert Q. apply Forall_impl. intros p. now apply made_of_mono.
  - revert S. apply Forall_impl. intros p. now apply made_of_mono.
Qed.

Lemma clean_frame (arrived : list Blob) (s s' : State) :
  audioChunks s' = audioChunks s -> chunkQueue s' = chunkQueue s ->
  transcribeCalls s' = transcribeCalls s -> clean arrived s -> clean arrived s'.
Proof.
  unfold clean, sent. now intros -> -> ->.
Qed.

Lemma sendChunkToBackend_clean (arrived : list Blob) (b : Blob) (s : State) :
  made_of arrived b -> clean arrived s -> clean arrived (sendChunkToBackend b s).
Proof.
  intros M (A & Q & S). unfold sendChunkToBackend.
  destruct (isProcessing s); [now repeat split|].
  unfold clean, sent in *; simpl. repeat split; trivial.
  rewrite map_app. apply Forall_app. split; trivial.
  now repeat constructor.
Qed.

Lemma clean_queue (arrived : list Blob) (q : list Blob) (s : State) :
  Forall (made_of arrived) q -> clean arrived s ->
  clean arrived (set_chunkQueue q s).
Proof.
  intros Q (A & _ & S). now repeat split.
Qed.

Lemma createCompleteAudioFile_clean (arrived : list Blob) (s : State)
    (f : Blob) :
  clean arrived s -> createCompleteAudioFile s = Some f -> made_of arrived f.
Proof.
  intros (A & _) E. unfold createCompleteAudioFile in E.
  destruct (audioChunks s) eqn:C; [discriminate|].
  injection E as <-. now exists (audioChunks s); rewrite C.
Qed.

Lemma handleResult_clean (arrived : list Blob) (r : TranscribeResult)
    (s : State) :
  clean arrived s -> clean arrived (handleResult r s).
Proof.
  apply clean_frame.
  - apply handleResult_audioChunks.
  - apply handleResult_fifo.
  - apply handleResult_fifo.
Qed.

Lemma step_clean (arrived : list Blob) (e : Event) (s : State) :
  clean arrived s -> clean (arrived ++ kept e) (step e s).
Proof.
  intros H0.
  assert (H : clean (arrived ++ kept e) s).
  { revert H0. apply clean_mono. now apply incl_appl. }
  assert (K : incl (kept e) (arrived ++ kept e)) by (now apply incl_appr).
  clear H0. revert H K. generalize (arrived ++ kept e). clear arrived.
  intros arrived H K.
  destruct e as [data| | | |i r| | |r]; simpl.
  - simpl in K. destruct (accepted data) eqn:A;
      [|now rewrite (ondataavailable_rejected _ s A)].
    destruct H as (HA & HQ & HS).
    assert (I : incl (audioChunks s ++ [data]) arrived)
      by (now apply incl_app).
    assert (M : made_of arrived (newBlob (audioChunks s ++ [data]) webm_opus))
      by (now exists (audioChunks s ++ [data])).
    assert (Q' : Forall (made_of arrived)
                   (chunkQueue s
                    ++ [newBlob (audioChunks s ++ [data]) webm_opus])).
    { apply Forall_app. split; trivial. now repeat constructor. }
    destruct (isProcessing s) eqn:P.
    + rewrite (ondataavailable_busy _ s A P). now repeat split.
    + rewrite (ondataavailable_idle _ s A P).
      cbn [chunkQueue set_submitted set_chunkQueue set_audioChunks].
      apply sendChunkToBackend_clean.
      * destruct (chunkQueue s ++ _); trivial. now inversion Q'.
      * apply clean_queue; [|now repeat split].
        destruct (chunkQueue s ++ _); trivial. now inversion Q'.
  - destruct H as (_ & HQ & HS). repeat split; trivial.
  - unfold onstop.
    destruct (createCompleteAudioFile s) as [f|] eqn:E; trivial.
    destruct (1000 <? size f); trivial.
    apply sendChunkToBackend_clean.
    + now apply createCompleteAudioFile_clean with s.
    + revert H. now apply clean_frame.
  - revert H. now apply clean_frame.
  - destruct (nth_error (inFlight s) i); trivial.
    unfold sendChunkToBackend_resume.
    destruct r; try (revert H; now apply clean_frame).
    assert (H' : clean arrived
                   (handleResult result
                      (set_inFlight (remove_nth i (inFlight s)) s))).
    { apply handleResult_clean. revert H. now apply clean_frame. }
    revert H'. now apply clean_frame.
  - destruct (timeouts s); trivial.
    unfold drain.
    destruct (_ && _); [|revert H; now apply clean_frame].
    pose proof H as (HA & HQ & HS).
    cbn [chunkQueue set_timeouts].
    destruct (chunkQueue s) as [|c q] eqn:Q; simpl.
    + revert H. now apply clean_frame.
    + inversion HQ; subst.
      apply sendChunkToBackend_clean; trivial.
      now repeat split.
  - unfold startNewSession.
    destruct (sessionStarting s); exact H.
  - destruct (startPending s); trivial.
    destruct H as (HA & HQ & HS).
    destruct r; repeat split; trivial.
Qed.

(** Whatever happens, every payload sent is built from accepted segments
    that arrived, and from nothing else. *)
Lemma run_clean (evs : list Event) :
  Forall (made_of (arrivals evs)) (sent (run evs initial)).
Proof.
  assert (H : forall s arrived,
             clean arrived s -> clean (arrived ++ arrivals evs) (run evs s)).
  { induction evs as [|e evs IH]; intros s arrived I.
    - unfold arrivals; simpl. now rewrite app_nil_r.
    - rewrite run_cons. unfold arrivals; simpl. rewrite app_assoc.
      apply IH, step_clean, I. }
  apply (H initial []).
  repeat split; try constructor. intros x [].
Qed.

(** ** ChunkAccumulator: the threshold *)

(** C9.  A segment of at most 1000 bytes leaves the component exactly as it
    was, and every payload ever sent is built from accepted segments that
    arrived, never from it.  A segment of more than
    1000 bytes is appended to the accumulated segments and, until a session
    begins again, stays there: its bytes are in the payload made on its
    arrival and in every payload made after it, at the same place. *)
Theorem threshold_filter (data : Blob) (s : State) (later : list Event) :
  (size data <= 1000 ->
   ondataavailable data s = s
   /\ forall (evs : list Event) (p : Blob),
        In p (sent (run evs initial)) ->
        exists chunks,
          p = newBlob chunks webm_opus
          /\ incl chunks (arrivals evs) /\ ~ In data chunks)
  /\ (1000 < size data ->
      forallb (fun e => negb (begins_session e)) later = true ->
      let before := concat (map blob_data (audioChunks s)) in
      let s' := run later (ondataavailable data s) in
      (exists rest, audioChunks s' = audioChunks s ++ data :: rest)
      /\ (exists first newer,
             submitted s' = submitted s ++ first :: newer
             /\ Forall (holds before data) (first :: newer))
      /\ exists final,
           createCompleteAudioFile s' = Some final /\ holds before data final).
Proof.
  split.
  - intros H.
    assert (R : accepted data = false) by (now apply Nat.ltb_ge).
    split; [now apply ondataavailable_rejected|].
    intros evs p I.
    pose proof (run_clean evs) as C.
    rewrite Forall_forall in C.
    destruct (C p I) as (chunks & A & ->).
    exists chunks. repeat split; trivial.
    intros D. rewrite (arrivals_accepted evs data (A data D)) in R.
    discriminate.
  - intros H Hs before s'.
    assert (A : accepted data = true) by (now apply Nat.ltb_lt).
    pose proof (ondataavailable_accepted data s A) as E.
    destruct (run_within_session later Hs (ondataavailable data s)
                (audioChunks s) [] data E) as [[rest Ha] (newer & Hn & Hf)].
    fold s' in Ha, Hn.
    split; [now exists rest|]. split.
    + exists (newBlob (audioChunks s ++ [data]) webm_opus), newer. split.
      * rewrite Hn, (ondataavailable_submitted data s A), <- app_assoc.
        reflexivity.
      * constructor; [apply newBlob_holds | exact Hf].
    + exists (newBlob (audioChunks s') webm_opus). split.
      * apply createCompleteAudioFile_some. rewrite Ha.
        now destruct (audioChunks s).
      * rewrite Ha. apply newBlob_holds.
Qed.

Lemma threshold_filter_witness :
  ondataavailable (segment 500 x00) initial = initial
  /\ exists final,
       createCompleteAudioFile
         (run [DataAvailable (segment 1200 x01); RecorderStop]
            (ondataavailable (segment 1500 x02) initial)) = Some final
       /\ holds [] (segment 1500 x02) final.
Proof.
  split.
  - apply (proj1 (threshold_filter (segment 500 x00) initial [])).
    apply Nat.leb_le. vm_compute. reflexivity.
  - apply (proj2 (threshold_filter (segment 1500 x02) initial
                    [DataAvailable (segment 1200 x01); RecorderStop])).
    + apply Nat.ltb_lt. vm_compute. reflexivity.
    + reflexivity.
Defined.

(** ** DispatchQueue: replies do not steer dispatch *)

Lemma sendChunkToBackend_view (b : Blob) (s : State) :
  dispatch_view (sendChunkToBackend b s)
  = dispatch_view (sendChunkToBackend b (dispatch_view s)).
Proof.
  unfold sendChunkToBackend; simpl. destruct (isProcessing s); reflexivity.
Qed.

Lemma handleResult_view (r : TranscribeResult) (s : State) :
  dispatch_view (handleResult r s) = dispatch_view s.
Proof.
  unfold handleResult.
  destruct (text r) as [t|]; trivial.
  destruct (truthy t && truthy (trim t)); trivial.
  destruct (milestone r); reflexivity.
Qed.

Lemma handleResult_shape (r : TranscribeResult) (s : State) :
  exists t m, handleResult r s = set_milestoneLogs m (set_transcript t s).
Proof.
  unfold handleResult.
  destruct (text r) as [t|];
    [|exists (transcript s), (milestoneLogs s); now destruct s].
  destruct (truthy t && truthy (trim t));
    [|exists (transcript s), (milestoneLogs s); now destruct s].
  destruct (milestone r); eexists; eexists; reflexivity.
Qed.

Lemma step_view (e : Event) (s : State) :
  dispatch_view (step e s) = dispatch_view (step e (dispatch_view s)).
Proof.
  destruct e as [data| | | |i r| | |r]; simpl; trivial.
  - unfold ondataavailable.
    destruct (1000 <? size data); trivial.
    unfold createCompleteAudioFile; simpl.
    destruct (audioChunks s ++ [data]) eqn:E; trivial.
    rewrite <- E; simpl.
    destruct (negb (isProcessing s)); trivial.
    destruct (shift _) as [[c|] q]; trivial.
    now rewrite sendChunkToBackend_view.
  - unfold onstop, createCompleteAudioFile; simpl.
    destruct (audioChunks s); trivial.
    destruct (1000 <? _); trivial.
    now rewrite sendChunkToBackend_view.
  - destruct (nth_error (inFlight s) i); trivial.
    unfold sendChunkToBackend_resume.
    destruct r; trivial.
    destruct (handleResult_shape result
                (set_inFlight (remove_nth i (inFlight s)) s))
      as (t1 & m1 & ->).
    destruct (handleResult_shape result
                (set_inFlight (remove_nth i (inFlight s)) (dispatch_view s)))
      as (t2 & m2 & ->).
    reflexivity.
  - destruct (timeouts s); trivial.
    unfold drain; simpl.
    destruct (_ && _); trivial.
    destruct (shift (chunkQueue s)) as [[c|] q]; trivial.
    now rewrite sendChunkToBackend_view.
  - unfold startNewSession; simpl. destruct (sessionStarting s); reflexivity.
  - destruct (startPending s); trivial.
    destruct r; reflexivity.
Qed.

Lemma step_forget (e : Event) (s : State) :
  dispatch_view (step e s) = dispatch_view (step (forget_reply e) s).
Proof.
  destruct e as [data| | | |i r| | |r]; simpl; trivial.
  destruct (nth_error (inFlight s) i); trivial.
  unfold sendChunkToBackend_resume.
  destruct r; trivial.
  destruct (handleResult_shape result
              (set_inFlight (remove_nth i (inFlight s)) s)) as (t & m & ->).
  reflexivity.
Qed.

Lemma run_view (evs : list Event) (s : State) :
  dispatch_view (run evs s) = dispatch_view (run evs (dispatch_view s)).
Proof.
  revert s. induction evs as [|e evs IH]; intros s; trivial.
  rewrite !run_cons.
  rewrite IH, step_view, <- IH. reflexivity.
Qed.

(** What is sent, what waits and what is in flight do not depend on what
    the service answers, only on when it answers. *)
Lemma run_forget (evs : list Event) (s : State) :
  dispatch_view (run evs s) = dispatch_view (run (map forget_reply evs) s).
Proof.
  revert s. induction evs as [|e evs IH]; intros s; trivial.
  simpl map. rewrite !run_cons.
  rewrite IH, run_view, step_forget, <- run_view. reflexivity.
Qed.

Lemma sent_view (s : State) : sent (dispatch_view s) = sent s.
Proof. reflexivity. Qed.

Lemma chunkQueue_view (s : State) : chunkQueue (dispatch_view s) = chunkQueue s.
Proof. reflexivity. Qed.

(** ** DispatchQueue: the claims *)

(** C1, as the code has it.  A payload the capture handler produces while a
    request is in flight is appended to [chunkQueue] behind any payload
    already waiting and replaces none: the queue grows by one, and no
    request goes out.  So when, from the initial state, three accepted
    segments arrive in a burst, their payloads are P1, P2, P3, of which P1
    is sent at once and P2, P3 both wait; and when then each request is
    answered and its drain timer fires, with no other event in between,
    three requests have gone out in all: P1, then P2, then P3. *)
Theorem busy_submission_queued :
  (forall (data : Blob) (s : State),
      accepted data = true -> isProcessing s = true ->
      let s' := ondataavailable data s in
      chunkQueue s'
        = chunkQueue s ++ [newBlob (audioChunks s ++ [data]) webm_opus]
      /\ length (chunkQueue s') = S (length (chunkQueue s))
      /\ transcribeCalls s' = transcribeCalls s)
  /\ (forall (d1 d2 d3 : Blob) (r1 r2 r3 : Reply),
         accepted d1 = true -> accepted d2 = true -> accepted d3 = true ->
         let P1 := newBlob [d1] webm_opus in
         let P2 := newBlob [d1; d2] webm_opus in
         let P3 := newBlob [d1; d2; d3] webm_opus in
         let burst :=
           run [DataAvailable d1; DataAvailable d2; DataAvailable d3] initial in
         let drained :=
           run [TranscribeReplied 0 r1; TimeoutFired;
                TranscribeReplied 0 r2; TimeoutFired;
                TranscribeReplied 0 r3; TimeoutFired] burst in
         sent burst = [P1] /\ chunkQueue burst = [P2; P3]
         /\ sent drained = [P1; P2; P3] /\ chunkQueue drained = []).
Proof.
  split.
  - intros data s A P s'. subst s'.
    rewrite (ondataavailable_busy data s A P). simpl.
    repeat split. rewrite length_app. simpl. lia.
  - intros d1 d2 d3 r1 r2 r3 A1 A2 A3 P1 P2 P3 burst drained.
    assert (B : burst
                = mkState [] None [P2; P3] true false 1 [d1; d2; d3]
                    [mkRequest 1 P1] 0 0 [mkRequest 1 P1] 0 [P1; P2; P3] 0).
    { subst burst. unfold run; simpl fold_left.
      rewrite (ondataavailable_idle d1 initial A1 eq_refl). normal_state.
      rewrite (ondataavailable_busy d2) by trivial. normal_state.
      rewrite (ondataavailable_busy d3) by trivial. reflexivity. }
    split; [now rewrite B|]. split; [now rewrite B|].
    rewrite <- (sent_view drained), <- (chunkQueue_view drained).
    subst drained. rewrite run_forget, B. split; reflexivity.
Qed.

Lemma busy_submission_queued_witness :
  let d1 := segment 1001 x01 in
  let d2 := segment 1002 x02 in
  let d3 := segment 1003 x03 in
  let ok := OkJson (mkResult (Some (lit "hi")) false) in
  sent (run [TranscribeReplied 0 ok; TimeoutFired;
             TranscribeReplied 0 (NotOk 500); TimeoutFired;
             TranscribeReplied 0 FetchRejected; TimeoutFired]
          (run [DataAvailable d1; DataAvailable d2; DataAvailable d3] initial))
  = [newBlob [d1] webm_opus; newBlob [d1; d2] webm_opus;
     newBlob [d1; d2; d3] webm_opus].
Proof.
  intros d1 d2 d3 ok.
  apply (proj2 busy_submission_queued d1 d2 d3
           ok (NotOk 500) FetchRejected); reflexivity.
Defined.

(** C1, as the spec has it, fails: with P1 in flight, P2 and P3 both wait
    (depth 2), and three requests go out, P2 among them. *)
Lemma coalescing_counterexample :
  let d1 := segment 1001 x01 in
  let d2 := segment 1002 x02 in
  let d3 := segment 1003 x03 in
  let P1 := newBlob [d1] webm_opus in
  let P2 := newBlob [d1; d2] webm_opus in
  let P3 := newBlob [d1; d2; d3] webm_opus in
  let ok := OkJson (mkResult (Some (lit "hi")) false) in
  let burst :=
    run [DataAvailable d1; DataAvailable d2; DataAvailable d3] initial in
  let drained :=
    run [TranscribeReplied 0 ok; TimeoutFired;
         TranscribeReplied 0 ok; TimeoutFired;
         TranscribeReplied 0 ok; TimeoutFired] burst in
  sent burst = [P1]
  /\ length (inFlight burst) = 1
  /\ ~ length (chunkQueue burst) <= 1
  /\ sent drained = [P1; P2; P3]
  /\ sent drained <> [P1; P3].
Proof.
  intros d1 d2 d3 P1 P2 P3 ok burst drained.
  assert (L : length (chunkQueue burst) = 2) by (vm_compute; reflexivity).
  assert (D : sent drained = [P1; P2; P3]) by (vm_compute; reflexivity).
  split; [vm_compute; reflexivity|].
  split; [vm_compute; reflexivity|].
  split; [rewrite L; lia|].
  split; [exact D|].
  rewrite D. intros H. apply (f_equal (@length Blob)) in H. discriminate H.
Qed.

(** C2 at its failing input.  Three accepted segments arrive while the first
    payload is in flight; its reply comes; before the 100 ms timer fires the
    recorder is stopped, delivering a last short segment and then the stop
    event.  The stop handler sends its final file directly, past the two
    payloads still waiting in [chunkQueue], so the requests go out as P1,
    final, P2, P3 although the payloads arrived as P1, P2, P3, final: P2 is
    sent after a payload that arrived after it.  At every point of the trace
    at most one request is in flight. *)
Theorem final_file_overtakes_queue :
  let d1 := segment 1001 x01 in
  let d2 := segment 1002 x02 in
  let d3 := segment 1003 x03 in
  let P1 := newBlob [d1] webm_opus in
  let P2 := newBlob [d1; d2] webm_opus in
  let P3 := newBlob [d1; d2; d3] webm_opus in
  let final := newBlob [d1; d2; d3] webm_opus in
  let ok := OkJson (mkResult (Some (lit "hi")) false) in
  let trace :=
    [DataAvailable d1; DataAvailable d2; DataAvailable d3;
     TranscribeReplied 0 ok;
     DataAvailable (segment 200 x04); RecorderStop;
     TimeoutFired;
     TranscribeReplied 0 ok; TimeoutFired;
     TranscribeReplied 0 ok; TimeoutFired;
     TranscribeReplied 0 ok; TimeoutFired] in
  let s := run trace initial in
  submitted s = [P1; P2; P3; final]
  /\ sent s = [P1; final; P2; P3]
  /\ in_order (sent s) (submitted s) = false
  /\ forall n, length (inFlight (run (firstn n trace) initial)) <= 1.
Proof.
  intros d1 d2 d3 P1 P2 P3 final ok trace s.
  split; [vm_compute; reflexivity|].
  split; [vm_compute; reflexivity|].
  split; [vm_compute; reflexivity|].
  intros n. apply single_flight.
Qed.

Lemma size_newBlob (chunks : list Blob) (data : Blob) (type : jsstring) :
  In data chunks -> size data <= size (newBlob chunks type).
Proof.
  unfold size, newBlob; simpl.
  induction chunks as [|c chunks IH]; simpl; [tauto|].
  rewrite length_app. intros [->|H]; [lia|].
  specialize (IH H). lia.
Qed.

(** With no request in flight, the stop handler does send the final file:
    one request, carrying every accumulated segment. *)
Lemma onstop_idle (s : State) (data : Blob) :
  isProcessing s = false -> In data (audioChunks s) -> accepted data = true ->
  sent (onstop s) = sent s ++ [newBlob (audioChunks s) webm_opus].
Proof.
  intros P I A. unfold onstop.
  rewrite createCompleteAudioFile_some by (now destruct (audioChunks s)).
  pose proof (size_newBlob (audioChunks s) data webm_opus I) as L.
  apply Nat.ltb_lt in A.
  replace (1000 <? size (newBlob (audioChunks s) webm_opus)) with true
    by (symmetry; apply Nat.ltb_lt; lia).
  unfold sendChunkToBackend, sent; simpl. rewrite P; simpl.
  now rewrite map_app.
Qed.

(** C3 at its failing input.  One accepted segment is captured and its
    payload is in flight when the recorder is stopped (a last short segment,
    then the stop event).  The stop handler builds the final file and hands
    it to [sendChunkToBackend], which returns at its guard: no request goes
    out at the stop, the file is not queued either, and after the reply and
    its timer the one request of the session is still the first payload. *)
Theorem final_file_dropped_when_busy :
  let d1 := segment 1500 x01 in
  let P1 := newBlob [d1] webm_opus in
  let final := newBlob [d1] webm_opus in
  let ok := OkJson (mkResult (Some (lit "hi")) false) in
  let before := run [DataAvailable d1; DataAvailable (segment 200 x04)] initial in
  let stopped := step RecorderStop before in
  let settled := run [TranscribeReplied 0 ok; TimeoutFired] stopped in
  createCompleteAudioFile before = Some final
  /\ isProcessing before = true
  /\ submitted stopped = [P1; final]
  /\ transcribeCalls stopped = transcribeCalls before
  /\ chunkQueue stopped = []
  /\ transcribeCalls settled = [mkRequest 1 P1]
  /\ chunkQueue settled = [] /\ inFlight settled = [] /\ timeouts settled = 0.
Proof.
  intros d1 P1 final ok before stopped settled.
  repeat apply conj; vm_compute; reflexivity.
Qed.

(** ** SessionManager *)

(** C5, as the code has it.  A start request that is made and answered with
    a session id stores the id, empties the transcript, the accumulated
    segments and the chunk counter and lowers [sessionStarting]; the pending
    queue, the in-flight flag and the request in flight are as they were. *)
Theorem session_start_resets (session_id : jsstring) (s : State)
    (idle : sessionStarting s = false) :
  let s' := run [StartSessionCalled; StartSessionReplied (StartOk session_id)] s in
  currentSession s' = Some session_id
  /\ transcript s' = []
  /\ audioChunks s' = []
  /\ chunkCounter s' = 0
  /\ sessionStarting s' = false
  /\ createCompleteAudioFile s' = None
  /\ startCalls s' = S (startCalls s)
  /\ chunkQueue s' = chunkQueue s
  /\ isProcessing s' = isProcessing s
  /\ inFlight s' = inFlight s.
Proof.
  unfold run; simpl. unfold startNewSession. rewrite idle. simpl.
  repeat split.
Qed.

Lemma session_start_resets_witness :
  let s :=
    run [StartSessionCalled; StartSessionReplied (StartOk (lit "s-2"))]
      (run [DataAvailable (segment 1500 x01)] initial) in
  transcript s = [] /\ audioChunks s = [] /\ chunkCounter s = 0.
Proof.
  pose proof (session_start_resets (lit "s-2")
                (run [DataAvailable (segment 1500 x01)] initial) eq_refl)
    as (_ & T & A & C & _).
  exact (conj T (conj A C)).
Defined.

(** C5, as the spec has it, fails: a session is started while the first
    payload of the previous one is in flight and the second waits.  The
    queue and the flag survive the start; the late reply puts its text into
    the new transcript, and the waiting payload of the previous session is
    sent in the new one. *)
Lemma session_start_counterexample :
  let d1 := segment 1001 x01 in
  let d2 := segment 1002 x02 in
  let P1 := newBlob [d1] webm_opus in
  let P2 := newBlob [d1; d2] webm_opus in
  let old := OkJson (mkResult (Some (lit "old words")) false) in
  let previous :=
    run [DataAvailable d1; DataAvailable d2; RecorderStop] initial in
  let started :=
    run [StartSessionCalled; StartSessionReplied (StartOk (lit "s-2"))]
      previous in
  let later := run [TranscribeReplied 0 old; TimeoutFired] started in
  currentSession started = Some (lit "s-2")
  /\ chunkQueue started = [P2]
  /\ isProcessing started = true
  /\ transcript started = []
  /\ transcript later = lit "old words"
  /\ sent previous = [P1]
  /\ sent later = [P1; P2].
Proof.
  intros d1 d2 P1 P2 old previous started later.
  repeat apply conj; vm_compute; reflexivity.
Qed.

Lemma sendChunkToBackend_session (b : Blob) (s : State) :
  sessionStarting (sendChunkToBackend b s) = sessionStarting s
  /\ currentSession (sendChunkToBackend b s) = currentSession s
  /\ startCalls (sendChunkToBackend b s) = startCalls s.
Proof.
  unfold sendChunkToBackend. destruct (isProcessing s); now repeat split.
Qed.

Lemma step_while_starting (e : Event) (s : State) :
  is_start_reply e = false -> sessionStarting s = true ->
  sessionStarting (step e s) = true
  /\ currentSession (step e s) = currentSession s
  /\ startCalls (step e s) = startCalls s.
Proof.
  intros R G.
  assert (frame : forall c x,
             sessionStarting x = true ->
             currentSession x = currentSession s ->
             startCalls x = startCalls s ->
             sessionStarting (sendChunkToBackend c x) = true
             /\ currentSession (sendChunkToBackend c x) = currentSession s
             /\ startCalls (sendChunkToBackend c x) = startCalls s).
  { intros c x H1 H2 H3.
    destruct (sendChunkToBackend_session c x) as (-> & -> & ->).
    now repeat split. }
  destruct e as [data| | | |i r| | |r]; simpl;
    try discriminate; try (now repeat split).
  - unfold ondataavailable.
    destruct (1000 <? size data); [|now repeat split].
    destruct (createCompleteAudioFile _); [|now repeat split].
    destruct (negb _); [|now repeat split].
    destruct (shift _) as [[c|] q]; [|now repeat split].
    now apply frame.
  - unfold onstop.
    destruct (createCompleteAudioFile s) as [f|]; [|now repeat split].
    destruct (1000 <? size f); [|now repeat split].
    now apply frame.
  - destruct (nth_error (inFlight s) i); [|now repeat split].
    unfold sendChunkToBackend_resume.
    destruct r; try (now repeat split).
    destruct (handleResult_shape result
                (set_inFlight (remove_nth i (inFlight s)) s)) as (t & m & ->).
    now repeat split.
  - destruct (timeouts s); [now repeat split|].
    unfold drain.
    destruct (_ && _); [|now repeat split].
    destruct (shift _) as [[c|] q]; [|now repeat split].
    now apply frame.
  - unfold startNewSession. rewrite G. now repeat split.
Qed.

Lemma run_while_starting (evs : list Event) (s : State) :
  forallb (fun e => negb (is_start_reply e)) evs = true ->
  sessionStarting s = true ->
  sessionStarting (run evs s) = true
  /\ currentSession (run evs s) = currentSession s
  /\ startCalls (run evs s) = startCalls s.
Proof.
  revert s. induction evs as [|e evs IH]; intros s Hs G; [now repeat split|].
  simpl in Hs. apply andb_prop in Hs as [He Hl].
  apply negb_true_iff in He.
  destruct (step_while_starting e s He G) as (G' & C & N).
  rewrite run_cons.
  destruct (IH (step e s) Hl G') as (-> & -> & ->).
  now repeat split.
Qed.

(** C7.  While a start request awaits its reply, whatever else happens in
    between, a second call of [startNewSession] returns at the guard with
    the session the component already holds and issues no request: the state
    is untouched.  When the first call is then answered, it returns the new
    id, and one start request has gone out in all.  Called as the component
    calls it, with no current session, the two calls yield that one
    identifier only. *)
Theorem second_start_is_skipped (session_id : jsstring) (s : State)
    (between : list Event)
    (idle : sessionStarting s = false)
    (no_session : currentSession s = None)
    (unresolved : forallb (fun e => negb (is_start_reply e)) between = true) :
  let first := startNewSession s in
  let s1 := fst first in
  let second := startNewSession (run between s1) in
  let resolved := startNewSession_resume (StartOk session_id) (fst second) in
  snd first = Suspended
  /\ startCalls s1 = S (startCalls s)
  /\ snd second = Returned (currentSession s)
  /\ fst second = run between s1
  /\ startCalls (fst second) = S (startCalls s)
  /\ snd resolved = Some session_id
  /\ startCalls (fst resolved) = S (startCalls s)
  /\ currentSession (fst resolved) = Some session_id
  /\ sessionStarting (fst resolved) = false
  /\ identifiers [snd resolved; outcome_value (snd second)] = [session_id].
Proof.
  intros first s1 second resolved.
  assert (E1 : first
               = (set_startPending (S (startPending s))
                    (set_startCalls (S (startCalls s))
                       (set_sessionStarting true s)), Suspended)).
  { subst first. unfold startNewSession. now rewrite idle. }
  assert (G1 : sessionStarting s1 = true) by (subst s1; now rewrite E1).
  destruct (run_while_starting between s1 unresolved G1) as (G & C & N).
  assert (E2 : second
               = (run between s1, Returned (currentSession (run between s1)))).
  { subst second. unfold startNewSession. now rewrite G. }
  subst resolved. rewrite E2. simpl. rewrite C, N.
  subst s1. rewrite E1. simpl. rewrite no_session.
  repeat split.
Qed.

Lemma second_start_is_skipped_witness :
  let s1 := fst (startNewSession initial) in
  let between := [DataAvailable (segment 1500 x01)] in
  snd (startNewSession (run between s1)) = Returned None
  /\ fst (startNewSession (run between s1)) = run between s1
  /\ startCalls (fst (startNewSession (run between s1))) = 1.
Proof.
  pose proof (second_start_is_skipped (lit "s-1") initial
                [DataAvailable (segment 1500 x01)]
                eq_refl eq_refl eq_refl) as (_ & _ & R & S & N & _).
  exact (conj R (conj S N)).
Defined.

(** ** The milestone *)

Lemma handleResult_logs (r : TranscribeResult) (s : State) :
  milestoneLogs (handleResult r s) <= S (milestoneLogs s)
  /\ (milestone r = false -> milestoneLogs (handleResult r s) = milestoneLogs s).
Proof.
  unfold handleResult.
  destruct (text r) as [t|]; [|split; [lia | trivial]].
  destruct (truthy t && truthy (trim t)); [|split; [lia | trivial]].
  destruct (milestone r); simpl; split; try lia; trivial; discriminate.
Qed.

Lemma onResult_flag (t : jsstring) (st : TranscriptState) :
  (snd (onResult t st) = true -> ts_milestone (fst (onResult t st)) = true)
  /\ (ts_milestone st = true ->
      snd (onResult t st) = false /\ ts_milestone (fst (onResult t st)) = true).
Proof.
  unfold onResult.
  destruct (truthy (trim t)); cbn [fst snd ts_milestone].
  - split.
    + intros ->. apply orb_true_r.
    + intros ->. split; reflexivity.
  - split; [discriminate | now split].
Qed.

Lemma replies_after_milestone (texts : list jsstring) :
  forall (st : TranscriptState) (s : State),
    ts_milestone st = true ->
    milestoneLogs (snd (replies texts st s)) = milestoneLogs s.
Proof.
  induction texts as [|t rest IH]; intros st s F; trivial.
  simpl. destruct (onResult_flag t st) as [_ H].
  destruct (H F) as [Q F']. destruct (onResult t st) as [st' signal].
  simpl in Q, F'. subst signal.
  rewrite (IH st' _ F').
  now apply handleResult_logs.
Qed.

(** C6.  Within one session the client logs the milestone at most once,
    whatever results arrive: once the flag is up, no later result, however
    long, is answered with the milestone field set, so none is logged.
    Of three results of 3000 characters the first leaves the count at 3000
    and the log empty, the second takes the count to 6001 and is logged, and
    the third takes it to 9002 and the log still has one line. *)
Theorem milestone_fires_once :
  (forall (texts : list jsstring) (st : TranscriptState) (s : State),
      milestoneLogs (snd (replies texts st s)) <= S (milestoneLogs s))
  /\ (forall (texts : list jsstring) (st : TranscriptState) (s : State),
         ts_milestone st = true ->
         milestoneLogs (snd (replies texts st s)) = milestoneLogs s)
  /\ (let t := repeat 97%N 3000 in
      map (fun n =>
             let (st, s) := replies (repeat t n) fresh initial in
             (ts_count st, ts_milestone st, milestoneLogs s))
        [1; 2; 3]
      = [(3000, false, 0);
         (3000 + 1 + 3000, true, 1);
         (3000 + 1 + 3000 + 1 + 3000, true, 1)]).
Proof.
  split; [|split].
  - induction texts as [|t rest IH]; intros st s; simpl; [lia|].
    destruct (onResult_flag t st) as [H _].
    destruct (onResult t st) as [st' signal]. simpl in H.
    destruct signal.
    + rewrite (replies_after_milestone rest st' _ (H eq_refl)).
      apply handleResult_logs.
    + rewrite IH.
      now rewrite (proj2 (handleResult_logs (mkResult (Some t) false) s)).
  - intros texts st s F. now apply replies_after_milestone.
  - vm_compute. reflexivity.
Qed.

Lemma milestone_fires_once_witness :
  milestoneLogs
    (snd (replies [repeat 97%N 5000] (mkTranscriptState [] 0 true) initial))
  = 0.
Proof.
  apply (proj1 (proj2 milestone_fires_once) [repeat 97%N 5000]
           (mkTranscriptState [] 0 true) initial).
  reflexivity.
Defined.

(** * Further properties *)

(** ** How events move the dispatch queue *)

Lemma sendChunkToBackend_idle (b : Blob) (s : State) :
  isProcessing s = false ->
  sendChunkToBackend b s
  = set_inFlight (inFlight s ++ [mkRequest (S (chunkCounter s)) b])
      (set_transcribeCalls
         (transcribeCalls s ++ [mkRequest (S (chunkCounter s)) b])
         (set_chunkCounter (S (chunkCounter s)) (set_isProcessing true s))).
Proof.
  intros P. unfold sendChunkToBackend. now rewrite P.
Qed.

Lemma step_dispatch (e : Event) (s : State) : Dispatch e s (step e s).
Proof.
  destruct e as [data| | | |i r| | |r]; simpl.
  - destruct (accepted data) eqn:A.
    + destruct (isProcessing s) eqn:P.
      * rewrite (ondataavailable_busy _ s A P).
        now apply dispatch_enqueue with data.
      * rewrite (ondataavailable_idle _ s A P).
        cbn [chunkQueue set_submitted set_chunkQueue set_audioChunks].
        rewrite sendChunkToBackend_idle by exact P.
        apply dispatch_send
          with (hd (newBlob (audioChunks s ++ [data]) webm_opus)
                  (chunkQueue s
                   ++ [newBlob (audioChunks s ++ [data]) webm_opus]));
          trivial.
        left. exists data. repeat split; trivial. simpl.
        now destruct (chunkQueue s).
    + rewrite (ondataavailable_rejected _ s A). now apply dispatch_same.
  - now apply dispatch_same.
  - unfold onstop.
    destruct (createCompleteAudioFile s) as [f|] eqn:C;
      [|now apply dispatch_same].
    destruct (1000 <? size f) eqn:L; [|now apply dispatch_same].
    destruct (isProcessing s) eqn:P.
    + rewrite sendChunkToBackend_busy by exact P. now apply dispatch_same.
    + rewrite sendChunkToBackend_idle by exact P.
      apply dispatch_send with f; trivial.
      right. right. apply Nat.ltb_lt in L. now repeat split.
  - now apply dispatch_same.
  - destruct (nth_error (inFlight s) i) as [request|] eqn:N;
      [|now apply dispatch_same].
    unfold sendChunkToBackend_resume.
    destruct r;
      try (now apply dispatch_replied with i request).
    destruct (handleResult_shape result
                (set_inFlight (remove_nth i (inFlight s)) s)) as (t & m & ->).
    now apply dispatch_replied with i request.
  - destruct (timeouts s) as [|n] eqn:T; [now apply dispatch_same|].
    unfold drain. cbn [chunkQueue isProcessing set_timeouts].
    destruct (isProcessing s) eqn:P.
    + rewrite andb_false_r. apply dispatch_timer; simpl; auto.
    + destruct (chunkQueue s) as [|c q] eqn:Q; simpl.
      * apply dispatch_timer; simpl; auto.
      * rewrite sendChunkToBackend_idle by exact P.
        apply dispatch_send with c; trivial.
        right. left. simpl. now split.
  - unfold startNewSession.
    destruct (sessionStarting s); now apply dispatch_same.
  - destruct (startPending s); [now apply dispatch_same|].
    destruct r; try (now apply dispatch_same).
    now apply dispatch_reset.
Qed.

Lemma step_flight_exact (e : Event) (s : State) :
  flight_exact s -> flight_exact (step e s).
Proof.
  intros H. unfold flight_exact in *.
  destruct (step_dispatch e s)
    as [P F Q C T N | _ P F Q C T N | T B P F Q C N | d A B Q P F C T N
        | i request G P F T Q C N | b B P F C N O].
  - now rewrite P, F, C.
  - now rewrite P, F, C.
  - now rewrite P, F, C.
  - now rewrite P, F, C.
  - left. split; trivial. rewrite F.
    destruct H as [[_ E]|(_ & older & req & E & _)]; rewrite E in *.
    + now destruct i.
    + destruct i as [|i]; trivial. now destruct i.
  - right. split; trivial.
    destruct H as [[_ E]|[E _]]; [|congruence].
    exists (transcribeCalls s), (mkRequest (S (chunkCounter s)) b).
    now rewrite F, C, E.
Qed.

Lemma step_drain_pending (e : Event) (s : State) :
  drain_pending s -> drain_pending (step e s).
Proof.
  intros H. unfold drain_pending in *.
  destruct (step_dispatch e s)
    as [P F Q C T N | _ P F Q C T N | T B P F Q C N | d A B Q P F C T N
        | i request G P F T Q C N | b B P F C N O].
  - now rewrite P, Q, T.
  - now rewrite P, Q, T.
  - rewrite P, Q. intros I E. destruct B as [B|B]; congruence.
  - rewrite P. congruence.
  - rewrite T. lia.
  - rewrite P. discriminate.
Qed.

Lemma run_invariant (I : State -> Prop) :
  (forall e s, I s -> I (step e s)) ->
  forall evs s, I s -> I (run evs s).
Proof.
  intros Hstep evs. induction evs as [|e evs IH]; intros s H; trivial.
  rewrite run_cons. apply IH, Hstep, H.
Qed.

(** X1.  After any sequence of events the flag says exactly what is in
    flight: with [isProcessing] down no request awaits a reply, and with it
    up exactly one does, the last one issued.  So the flag never sticks with
    nothing to wait for, and never hides a request. *)
Theorem flag_matches_flight (evs : list Event) :
  let s := run evs initial in
  length (inFlight s) = (if isProcessing s then 1 else 0)
  /\ (isProcessing s = true ->
      exists older request,
        inFlight s = [request] /\ transcribeCalls s = older ++ [request]).
Proof.
  intros s.
  assert (H : flight_exact s).
  { apply run_invariant; [apply step_flight_exact|]. now left. }
  destruct H as [[P F]|(P & older & req & F & C)]; rewrite P, F.
  - split; [reflexivity | discriminate].
  - split; [reflexivity|]. intros _. now exists older, req.
Qed.

Lemma flag_matches_flight_witness :
  let s :=
    run [DataAvailable (segment 1001 x01); TranscribeReplied 0 FetchRejected;
         RecorderStop] initial in
  exists older request,
    inFlight s = [request] /\ transcribeCalls s = older ++ [request].
Proof.
  apply (proj2 (flag_matches_flight
                  [DataAvailable (segment 1001 x01);
                   TranscribeReplied 0 FetchRejected; RecorderStop])).
  reflexivity.
Defined.

(** X2.  After any sequence of events, a payload waiting in [chunkQueue] is
    never stranded: either a request is in flight, whose reply will schedule
    the drain, or a drain timer is already pending. *)
Theorem waiting_payload_has_a_wakeup (evs : list Event) :
  let s := run evs initial in
  chunkQueue s <> [] -> inFlight s <> [] \/ 0 < timeouts s.
Proof.
  intros s Q.
  assert (H : flight_exact s).
  { apply run_invariant; [apply step_flight_exact|]. now left. }
  assert (D : drain_pending s).
  { apply run_invariant; [apply step_drain_pending|].
    intros _ E. now elim E. }
  destruct H as [[P F]|(P & older & req & F & C)].
  - right. now apply D.
  - left. rewrite F. discriminate.
Qed.

Lemma waiting_payload_has_a_wakeup_witness :
  let s :=
    run [DataAvailable (segment 1001 x01); DataAvailable (segment 1002 x02);
         TranscribeReplied 0 FetchRejected] initial in
  inFlight s <> [] \/ 0 < timeouts s.
Proof.
  apply (waiting_payload_has_a_wakeup
           [DataAvailable (segment 1001 x01); DataAvailable (segment 1002 x02);
            TranscribeReplied 0 FetchRejected]).
  vm_compute. discriminate.
Defined.

Lemma settle_forget (rs : list Reply) :
  map forget_reply (settle rs) = settle (repeat FetchRejected (length rs)).
Proof.
  induction rs as [|r rs IH]; simpl; trivial. now rewrite IH.
Qed.

Lemma round_rejected (s : State) (request : Request) :
  isProcessing s = true -> inFlight s = [request] ->
  let s' := run [TranscribeReplied 0 FetchRejected; TimeoutFired] s in
  match chunkQueue s with
  | [] =>
      isProcessing s' = false /\ inFlight s' = []
      /\ chunkQueue s' = [] /\ sent s' = sent s
  | c :: q =>
      isProcessing s' = true /\ (exists request', inFlight s' = [request'])
      /\ chunkQueue s' = q /\ sent s' = sent s ++ [c]
  end.
Proof.
  intros P F. unfold run; simpl. rewrite F; simpl.
  unfold drain; simpl.
  destruct (chunkQueue s) as [|c q] eqn:Q; simpl.
  - now repeat split.
  - unfold sendChunkToBackend, sent; simpl. rewrite map_app.
    repeat split. now eexists.
Qed.

Lemma settle_quiet (n : nat) (s : State) :
  isProcessing s = false -> inFlight s = [] -> chunkQueue s = [] ->
  let s' := run (settle (repeat FetchRejected n)) s in
  isProcessing s' = false /\ inFlight s' = []
  /\ chunkQueue s' = [] /\ sent s' = sent s.
Proof.
  revert s. induction n as [|n IH]; intros s P F Q; [now repeat split|].
  simpl repeat. simpl settle. rewrite !run_cons.
  assert (E1 : step (TranscribeReplied 0 FetchRejected) s = s)
    by (simpl; now rewrite F).
  rewrite E1.
  assert (E2 : isProcessing (step TimeoutFired s) = false
               /\ inFlight (step TimeoutFired s) = []
               /\ chunkQueue (step TimeoutFired s) = []
               /\ sent (step TimeoutFired s) = sent s).
  { simpl. destruct (timeouts s); [now repeat split|].
    unfold drain; simpl. rewrite Q. simpl. now repeat split. }
  destruct E2 as (P' & F' & Q' & S').
  destruct (IH _ P' F' Q') as (? & ? & ? & S2).
  repeat split; trivial. now rewrite S2.
Qed.

Lemma settle_rejected (n : nat) :
  forall (s : State) (request : Request),
    isProcessing s = true -> inFlight s = [request] ->
    length (chunkQueue s) < n ->
    let s' := run (settle (repeat FetchRejected n)) s in
    isProcessing s' = false /\ inFlight s' = []
    /\ chunkQueue s' = [] /\ sent s' = sent s ++ chunkQueue s.
Proof.
  induction n as [|n IH]; intros s request P F L; [lia|].
  simpl repeat. simpl settle.
  change (TranscribeReplied 0 FetchRejected :: TimeoutFired
            :: settle (repeat FetchRejected n))
    with ([TranscribeReplied 0 FetchRejected; TimeoutFired]
            ++ settle (repeat FetchRejected n)).
  unfold run at 1. rewrite fold_left_app.
  fold (run [TranscribeReplied 0 FetchRejected; TimeoutFired] s).
  fold (run (settle (repeat FetchRejected n))
          (run [TranscribeReplied 0 FetchRejected; TimeoutFired] s)).
  pose proof (round_rejected s P F) as R. cbv zeta in R.
  destruct (chunkQueue s) as [|c q].
  - destruct R as (P' & F' & Q' & S').
    destruct (settle_quiet n _ P' F' Q') as (? & ? & ? & S2).
    repeat split; trivial. now rewrite S2, S', app_nil_r.
  - destruct R as (P' & (request' & F') & Q' & S').
    simpl in L.
    destruct (IH _ request' P' F') as (? & ? & ? & S2); [rewrite Q'; lia|].
    repeat split; trivial. rewrite S2, S', Q', <- app_assoc. reflexivity.
Qed.

Lemma settle_view (rs : list Reply) (s : State) :
  dispatch_view (run (TimeoutFired :: settle rs) s)
  = dispatch_view
      (run (TimeoutFired :: settle (repeat FetchRejected (length rs))) s).
Proof.
  rewrite run_forget. simpl map. now rewrite settle_forget.
Qed.

Lemma settle_drains_rejected (evs : list Event) (n : nat) :
  let s := run evs initial in
  length (chunkQueue s) < n ->
  let t := run (TimeoutFired :: settle (repeat FetchRejected n)) s in
  isProcessing t = false /\ inFlight t = []
  /\ chunkQueue t = [] /\ sent t = sent s ++ chunkQueue s.
Proof.
  intros s L t. subst t.
  assert (H : flight_exact s).
  { apply run_invariant; [apply step_flight_exact|]. now left. }
  assert (D : drain_pending s).
  { apply run_invariant; [apply step_drain_pending|].
    intros _ E. now elim E. }
  rewrite run_cons.
  destruct H as [[P F]|(P & older & request & F & C)].
  - destruct (chunkQueue s) as [|c q] eqn:Q.
    + assert (E : isProcessing (step TimeoutFired s) = false
                  /\ inFlight (step TimeoutFired s) = []
                  /\ chunkQueue (step TimeoutFired s) = []
                  /\ sent (step TimeoutFired s) = sent s).
      { simpl. destruct (timeouts s); [now repeat split|].
        unfold drain; simpl. rewrite Q. simpl. now repeat split. }
      destruct E as (P' & F' & Q' & S').
      destruct (settle_quiet n _ P' F' Q') as (? & ? & ? & S2).
      repeat split; trivial. now rewrite S2, S', app_nil_r.
    + assert (T : 0 < timeouts s) by (apply D; [trivial | now rewrite Q]).
      assert (E : isProcessing (step TimeoutFired s) = true
                  /\ (exists request, inFlight (step TimeoutFired s) = [request])
                  /\ chunkQueue (step TimeoutFired s) = q
                  /\ sent (step TimeoutFired s) = sent s ++ [c]).
      { simpl. destruct (timeouts s) as [|t]; [lia|].
        unfold drain; simpl. rewrite Q, P. simpl.
        rewrite sendChunkToBackend_idle by exact P.
        unfold sent; simpl. rewrite map_app, F. repeat split. now eexists. }
      destruct E as (P' & (request' & F') & Q' & S').
      simpl in L.
      destruct (@settle_rejected n _ _ P' F') as (? & ? & ? & S2);
        [rewrite Q'; lia|].
      repeat split; trivial. rewrite S2, S', Q', <- app_assoc. reflexivity.
  - assert (E : isProcessing (step TimeoutFired s) = true
                /\ inFlight (step TimeoutFired s) = [request]
                /\ chunkQueue (step TimeoutFired s) = chunkQueue s
                /\ sent (step TimeoutFired s) = sent s).
    { simpl. destruct (timeouts s); [now repeat split|].
      unfold drain; simpl. rewrite P, andb_false_r. now repeat split. }
    destruct E as (P' & F' & Q' & S').
    destruct (@settle_rejected n _ _ P' F') as (? & ? & ? & S2);
      [rewrite Q'; exact L|].
    repeat split; trivial. now rewrite S2, S', Q'.
Qed.

(** X3.  From any state the component can reach, once the pending timer has
    fired and replies and timers keep coming, one pair for every waiting
    payload and one more, the queue is empty, nothing is in flight, and the
    requests sent since are exactly the payloads that were waiting, in their
    order.  The replies may be failures: a failed request is not sent again
    and does not hold the queue back. *)
Theorem queue_drains_in_order (evs : list Event) (rs : list Reply) :
  let s := run evs initial in
  length (chunkQueue s) < length rs ->
  let s' := run (TimeoutFired :: settle rs) s in
  chunkQueue s' = [] /\ inFlight s' = [] /\ isProcessing s' = false
  /\ sent s' = sent s ++ chunkQueue s.
Proof.
  intros s L s'.
  pose proof (settle_view rs s) as V. fold s' in V.
  destruct (settle_drains_rejected evs L) as (P & F & Q & S).
  fold s in P, F, Q, S.
  apply (f_equal chunkQueue) in V as VQ.
  apply (f_equal inFlight) in V as VF.
  apply (f_equal isProcessing) in V as VP.
  apply (f_equal sent) in V as VS.
  simpl in VQ, VF, VP. rewrite !sent_view in VS.
  rewrite VQ, VF, VP, VS. now repeat split.
Qed.

Lemma queue_drains_in_order_witness :
  let evs :=
    [DataAvailable (segment 1001 x01); DataAvailable (segment 1002 x02);
     DataAvailable (segment 1003 x03)] in
  let rs := [FetchRejected; NotOk 500; FetchRejected] in
  chunkQueue (run (TimeoutFired :: settle rs) (run evs initial)) = []
  /\ sent (run (TimeoutFired :: settle rs) (run evs initial))
     = sent (run evs initial) ++ chunkQueue (run evs initial).
Proof.
  intros evs rs.
  destruct (queue_drains_in_order evs rs) as (Q & _ & _ & S).
  - vm_compute. lia.
  - exact (conj Q S).
Defined.

(** ** Numbering, the start guard, and what is sent *)



Lemma sendChunkToBackend_start (b : Blob) (s : State) :
  sessionStarting (sendChunkToBackend b s) = sessionStarting s
  /\ startPending (sendChunkToBackend b s) = startPending s.
Proof.
  unfold sendChunkToBackend. destruct (isProcessing s); now split.
Qed.

Lemma step_start_frame (e : Event) (s : State) :
  is_start_event e = false ->
  sessionStarting (step e s) = sessionStarting s
  /\ startPending (step e s) = startPending s.
Proof.
  intros R. destruct e as [data| | | |i r| | |r]; simpl;
    try discriminate; try (now split).
  - unfold ondataavailable.
    destruct (1000 <? size data); [|now split].
    destruct (createCompleteAudioFile _); [|now split].
    destruct (negb _); [|now split].
    destruct (shift _) as [[c|] q]; [|now split].
    match goal with
    | |- context [sendChunkToBackend ?c ?x] =>
        destruct (sendChunkToBackend_start c x) as [-> ->]
    end.
    now split.
  - unfold onstop.
    destruct (createCompleteAudioFile s) as [f|]; [|now split].
    destruct (1000 <? size f); [|now split].
    match goal with
    | |- context [sendChunkToBackend ?c ?x] =>
        destruct (sendChunkToBackend_start c x) as [-> ->]
    end.
    now split.
  - destruct (nth_error (inFlight s) i); [|now split].
    unfold sendChunkToBackend_resume.
    destruct r; try (now split).
    destruct (handleResult_shape result
                (set_inFlight (remove_nth i (inFlight s)) s)) as (t & m & ->).
    now split.
  - destruct (timeouts s); [now split|].
    unfold drain.
    destruct (_ && _); [|now split].
    destruct (shift _) as [[c|] q]; [|now split].
    match goal with
    | |- context [sendChunkToBackend ?c ?x] =>
        destruct (sendChunkToBackend_start c x) as [-> ->]
    end.
    now split.
Qed.

Lemma step_start_exact (e : Event) (s : State) :
  start_exact s -> start_exact (step e s).
Proof.
  unfold start_exact. intros H.
  destruct (is_start_event e) eqn:E.
  - destruct e as [data| | | |i r| | |r]; try discriminate; simpl.
    + unfold startNewSession.
      destruct (sessionStarting s) eqn:G; simpl; [now rewrite G|].
      now rewrite H.
    + destruct (startPending s) as [|n] eqn:N; [now rewrite N|].
      destruct (sessionStarting s); simpl in H; [|discriminate H].
      injection H as H. subst n. now destruct r.
  - now destruct (step_start_frame e s E) as [-> ->].
Qed.

(** X5.  After any sequence of events at most one start request awaits its
    reply, and [sessionStarting] is up exactly while it does.  Whatever the
    reply to it is (an id, an error status, a network failure), the guard
    comes down, and the next call of [startNewSession] sends a request
    again. *)
Theorem start_guard_follows_request (evs : list Event) (r : StartReply) :
  let s := run evs initial in
  startPending s = (if sessionStarting s then 1 else 0)
  /\ (sessionStarting s = true ->
      let s' := step (StartSessionReplied r) s in
      sessionStarting s' = false /\ startPending s' = 0
      /\ startCalls (step StartSessionCalled s') = S (startCalls s)
      /\ sessionStarting (step StartSessionCalled s') = true).
Proof.
  intros s.
  assert (H : start_exact s).
  { apply run_invariant; [apply step_start_exact|]. reflexivity. }
  split; [exact H|].
  intros G. unfold start_exact in H. rewrite G in H.
  simpl. rewrite H. destruct r; now repeat split.
Qed.

Lemma start_guard_follows_request_witness :
  let s := run [StartSessionCalled; DataAvailable (segment 1500 x01)] initial in
  let s' := step (StartSessionReplied (StartNotOk 503)) s in
  sessionStarting s' = false /\ startPending s' = 0
  /\ startCalls (step StartSessionCalled s') = S (startCalls s)
  /\ sessionStarting (step StartSessionCalled s') = true.
Proof.
  apply (proj2 (start_guard_follows_request
                  [StartSessionCalled; DataAvailable (segment 1500 x01)]
                  (StartNotOk 503))).
  reflexivity.
Defined.


Lemma run_audioChunks (evs : list Event) :
  forallb (fun e => negb (begins_session e)) evs = true ->
  forall s : State, audioChunks (run evs s) = audioChunks s ++ arrivals evs.
Proof.
  induction evs as [|e evs IH]; intros Hs s.
  - symmetry. apply app_nil_r.
  - simpl in Hs. apply andb_prop in Hs as [He Hl].
    apply negb_true_iff in He.
    rewrite run_cons, (IH Hl), (step_audioChunks e s He).
    unfold arrivals. simpl. symmetry. apply app_assoc.
Qed.

(** X6.  From the start of a recording (the recorder's start event) until
    the next session begins, the accumulated segments are exactly the
    accepted segments delivered since, in order of delivery, whatever else
    happened in between; the payload built from them is null while there is
    none and otherwise their bytes, one after the other. *)
Theorem accumulator_holds_arrivals (evs : list Event) (s : State)
    (within : forallb (fun e => negb (begins_session e)) evs = true) :
  let s' := run evs (step RecorderStart s) in
  audioChunks s' = arrivals evs
  /\ createCompleteAudioFile s'
     = match arrivals evs with
       | [] => None
       | _ :: _ =>
           Some (mkBlob (concat (map blob_data (arrivals evs))) webm_opus)
       end.
Proof.
  intros s'.
  assert (A : audioChunks s' = arrivals evs).
  { subst s'. now rewrite (run_audioChunks evs within). }
  split; trivial.
  unfold createCompleteAudioFile. rewrite A.
  now destruct (arrivals evs).
Qed.

Lemma accumulator_holds_arrivals_witness :
  audioChunks
    (run [DataAvailable (segment 1500 x01); DataAvailable (segment 200 x02);
          TranscribeReplied 0 FetchRejected; DataAvailable (segment 1200 x03)]
       (step RecorderStart
          (run [DataAvailable (segment 1100 x04)] initial)))
  = [segment 1500 x01; segment 1200 x03].
Proof.
  apply (accumulator_holds_arrivals
           [DataAvailable (segment 1500 x01); DataAvailable (segment 200 x02);
            TranscribeReplied 0 FetchRejected;
            DataAvailable (segment 1200 x03)]
           (run [DataAvailable (segment 1100 x04)] initial)).
  reflexivity.
Defined.

Lemma newBlob_sound (chunks : list Blob) (data : Blob) :
  In data chunks -> accepted data = true -> sound (newBlob chunks webm_opus).
Proof.
  intros I A. split; trivial.
  pose proof (size_newBlob chunks data webm_opus I) as L.
  apply Nat.ltb_lt in A. lia.
Qed.

Lemma step_sound (e : Event) (s : State) :
  sound_state s -> sound_state (step e s).
Proof.
  intros [HQ HS]. unfold sound_state, sent in *.
  destruct (step_dispatch e s)
    as [P F Q C T N | _ P F Q C T N | T B P F Q C N | d A B Q P F C T N
        | i request G P F T Q C N | b B P F C N O];
    try (now rewrite Q, C).
  - rewrite Q, C. split; trivial.
    apply Forall_app. split; trivial. repeat constructor.
    apply newBlob_sound with d; trivial. apply in_or_app. right. now left.
  - assert (W : sound b /\ Forall sound (chunkQueue (step e s))).
    { destruct O as [(d & A & Q & _)|[(Q & _)|(_ & F' & L & Q & _)]].
      - assert (X : Forall sound
                      (chunkQueue s
                       ++ [newBlob (audioChunks s ++ [d]) webm_opus])).
        { apply Forall_app. split; trivial. repeat constructor.
          apply newBlob_sound with d; trivial.
          apply in_or_app. right. now left. }
        rewrite Q in X. now inversion X.
      - rewrite Q in HQ. now inversion HQ.
      - rewrite Q. split; trivial. split; trivial.
        unfold createCompleteAudioFile in F'.
        destruct (audioChunks s); [discriminate|].
        now injection F' as <-. }
    destruct W as [Wb WQ]. split; trivial.
    rewrite C, map_app. apply Forall_app. split; trivial.
    constructor; [exact Wb | constructor].
Qed.

Lemma run_clean_state (evs : list Event) :
  clean (arrivals evs) (run evs initial).
Proof.
  assert (H : forall s arrived,
             clean arrived s -> clean (arrived ++ arrivals evs) (run evs s)).
  { induction evs as [|e evs IH]; intros s arrived I.
    - unfold arrivals; simpl. now rewrite app_nil_r.
    - rewrite run_cons. unfold arrivals; simpl. rewrite app_assoc.
      apply IH, step_clean, I. }
  apply (H initial []).
  repeat split; try constructor. intros x [].
Qed.

Lemma reachable_file_sound (evs : list Event) (f : Blob) :
  createCompleteAudioFile (run evs initial) = Some f -> sound f.
Proof.
  intros C. destruct (run_clean_state evs) as (A & _).
  unfold createCompleteAudioFile in C.
  destruct (audioChunks (run evs initial)) as [|c rest] eqn:E;
    [discriminate|].
  injection C as <-.
  apply newBlob_sound with c; [now left|].
  apply arrivals_accepted with evs. apply A. now left.
Qed.

(** X7.  After any sequence of events, every request body sent and every
    payload waiting is labelled audio/webm;codecs=opus, whatever type the
    recorder's segments carry, and has more than 1000 bytes; and the file
    [createCompleteAudioFile] returns is null or such a file, so the size
    test of the stop handler never turns a final file away. *)
Theorem every_payload_is_sound (evs : list Event) :
  let s := run evs initial in
  Forall sound (sent s) /\ Forall sound (chunkQueue s)
  /\ forall finalFile,
       createCompleteAudioFile s = Some finalFile ->
       sound finalFile /\ (1000 <? size finalFile) = true.
Proof.
  intros s.
  assert (H : sound_state s).
  { apply run_invariant; [apply step_sound|]. split; constructor. }
  destruct H as [HQ HS]. repeat split; trivial;
    destruct (reachable_file_sound evs H) as [T L]; trivial.
  now apply Nat.ltb_lt.
Qed.

Lemma every_payload_is_sound_witness :
  sound (newBlob [mkBlob (repeat x01 1500) (lit "audio/mp4")] webm_opus).
Proof.
  apply (proj2 (proj2 (every_payload_is_sound
                         [DataAvailable
                            (mkBlob (repeat x01 1500) (lit "audio/mp4"))]))).
  reflexivity.
Defined.

(** X8.  In any state the component can reach, a stop that finds no request
    in flight sends exactly one request, numbered next, whose body is all
    the accumulated segments, and leaves the waiting payloads where they
    are; a stop that finds nothing accumulated does nothing at all. *)
Theorem idle_stop_sends_final_file (evs : list Event) :
  let s := run evs initial in
  (audioChunks s = [] -> step RecorderStop s = s)
  /\ (audioChunks s <> [] -> isProcessing s = false ->
      let finalFile := newBlob (audioChunks s) webm_opus in
      let s' := step RecorderStop s in
      transcribeCalls s'
      = transcribeCalls s ++ [mkRequest (S (chunkCounter s)) finalFile]
      /\ inFlight s' = [mkRequest (S (chunkCounter s)) finalFile]
      /\ isProcessing s' = true
      /\ chunkQueue s' = chunkQueue s
      /\ blob_data finalFile = concat (map blob_data (audioChunks s))).
Proof.
  intros s. split.
  - intros E. simpl. unfold onstop, createCompleteAudioFile. now rewrite E.
  - intros E P finalFile s'.
    pose proof (createCompleteAudioFile_some s E) as C.
    destruct (reachable_file_sound evs C) as [_ L].
    apply Nat.ltb_lt in L.
    assert (H : flight_exact s).
    { apply run_invariant; [apply step_flight_exact|]. now left. }
    assert (F : inFlight s = []).
    { destruct H as [[_ F]|[P' _]]; [exact F | congruence]. }
    subst s' finalFile. simpl. unfold onstop. rewrite C, L.
    rewrite sendChunkToBackend_idle by exact P. simpl. rewrite F.
    now repeat split.
Qed.

Lemma idle_stop_sends_final_file_witness :
  let s :=
    run [DataAvailable (segment 1500 x01); TranscribeReplied 0 FetchRejected]
      initial in
  transcribeCalls (step RecorderStop s)
  = transcribeCalls s
    ++ [mkRequest (S (chunkCounter s)) (newBlob (audioChunks s) webm_opus)].
Proof.
  apply (proj2 (idle_stop_sends_final_file
                  [DataAvailable (segment 1500 x01);
                   TranscribeReplied 0 FetchRejected])).
  - vm_compute. discriminate.
  - reflexivity.
Defined.

Lemma step_keeps_payloads (e : Event) (s : State) (p : Blob) :
  In p (sent s ++ chunkQueue s) ->
  In p (sent (step e s) ++ chunkQueue (step e s)).
Proof.
  unfold sent. intros I.
  destruct (step_dispatch e s)
    as [P F Q C T N | _ P F Q C T N | T B P F Q C N | d A B Q P F C T N
        | i request G P F T Q C N | b B P F C N O];
    try (now rewrite Q, C).
  - rewrite Q, C, app_assoc. apply in_or_app. now left.
  - rewrite C, map_app, <- app_assoc. simpl.
    destruct O as [(d & A & Q & _)|[(Q & _)|(_ & _ & _ & Q & _)]].
    + rewrite <- Q, app_assoc. apply in_or_app. now left.
    + now rewrite <- Q.
    + rewrite Q. apply in_app_or in I as [I|I]; apply in_or_app;
        [now left | right; now right].
Qed.

Lemma step_audio_kept (e : Event) (s : State) :
  audio_kept s -> audio_kept (step e s).
Proof.
  intros K. unfold audio_kept.
  destruct (begins_session e) eqn:B.
  - destruct e as [| | | | | | |[| |id]]; try discriminate; simpl.
    + now left.
    + destruct (startPending s); [exact K | now left].
  - destruct (accepted_arrival e) as [d|] eqn:A.
    + destruct e; try discriminate. simpl in A.
      destruct (accepted data) eqn:A'; [|discriminate].
      injection A as ->. right. simpl.
      rewrite (ondataavailable_accepted _ s A').
      destruct (isProcessing s) eqn:P.
      * rewrite (ondataavailable_busy _ s A' P). simpl.
        apply in_or_app. right. apply in_or_app. right. now left.
      * rewrite (ondataavailable_idle _ s A' P).
        cbn [chunkQueue set_submitted set_chunkQueue set_audioChunks].
        rewrite sendChunkToBackend_idle by exact P.
        unfold sent. simpl. rewrite map_app, <- app_assoc. simpl.
        apply in_or_app. right.
        destruct (chunkQueue s); simpl; [now left|].
        right. apply in_or_app. right. now left.
    + assert (E : audioChunks (step e s) = audioChunks s).
      { rewrite (step_audioChunks e s B).
        destruct e; simpl in *; try apply app_nil_r.
        destruct (accepted data); [discriminate | apply app_nil_r]. }
      rewrite E. destruct K as [K|K]; [now left|].
      right. now apply step_keeps_payloads.
Qed.

(** X18.  The final file never holds bytes that no request was made for.
    In any state the component can reach, the file
    [createCompleteAudioFile] returns, if any, is a payload for which a
    /transcribe request has been issued or which waits in the queue, and
    once the queue has drained a request has been issued for it.  So a
    final file the stop handler drops because a request is in flight is,
    byte for byte, a payload already posted or next to be posted; what
    becomes of that request is another matter, and it is not sent again if
    it fails. *)
Theorem accumulated_audio_is_posted (evs : list Event) (rs : list Reply)
    (finalFile : Blob) :
  let s := run evs initial in
  createCompleteAudioFile s = Some finalFile ->
  In finalFile (sent s ++ chunkQueue s)
  /\ (isProcessing s = true ->
      sent (step RecorderStop s) = sent s
      /\ chunkQueue (step RecorderStop s) = chunkQueue s)
  /\ (length (chunkQueue s) < length rs ->
      In finalFile (sent (run (TimeoutFired :: settle rs) s))).
Proof.
  intros s C.
  assert (K : audio_kept s).
  { apply run_invariant; [apply step_audio_kept|]. now left. }
  unfold createCompleteAudioFile in C.
  destruct K as [K|K]; [now rewrite K in C|].
  destruct (audioChunks s) as [|c rest] eqn:A; [discriminate|].
  injection C as <-.
  split; [exact K|]. split.
  - intros P. simpl. unfold onstop, createCompleteAudioFile. rewrite A.
    destruct (1000 <? _); [|now split].
    now rewrite sendChunkToBackend_busy.
  - intros L.
    pose proof (f_equal sent (settle_view rs s)) as V.
    rewrite !sent_view in V. rewrite V.
    destruct (settle_drains_rejected evs L) as (_ & _ & _ & S).
    fold s in S. rewrite S. exact K.
Qed.

Lemma accumulated_audio_is_posted_witness :
  let evs :=
    [DataAvailable (segment 1001 x01); DataAvailable (segment 1002 x02)] in
  let finalFile := newBlob [segment 1001 x01; segment 1002 x02] webm_opus in
  let ok := OkJson (mkResult (Some (lit "hi")) false) in
  sent (step RecorderStop (run evs initial)) = sent (run evs initial)
  /\ In finalFile
       (sent (run (TimeoutFired :: settle [ok; ok]) (run evs initial))).
Proof.
  intros evs finalFile ok.
  destruct (@accumulated_audio_is_posted evs [ok; ok] finalFile)
    as (_ & D & H).
  - reflexivity.
  - split; [apply D; reflexivity | apply H; vm_compute; lia].
Defined.

(** ** The transcript over time *)

Lemma sendChunkToBackend_keeps_transcript (b : Blob) (s : State) :
  transcript (sendChunkToBackend b s) = transcript s.
Proof.
  unfold sendChunkToBackend. destruct (isProcessing s); reflexivity.
Qed.

Lemma handleResult_extends (r : TranscribeResult) (s : State) :
  exists suffix, transcript (handleResult r s) = transcript s ++ suffix.
Proof.
  unfold handleResult.
  destruct (text r) as [t|]; [|exists []; symmetry; apply app_nil_r].
  destruct (truthy t && truthy (trim t));
    [|exists []; symmetry; apply app_nil_r].
  assert (E : exists suffix,
             (if truthy (transcript s)
              then transcript s ++ lit " " ++ trim t
              else trim t) = transcript s ++ suffix).
  { destruct (transcript s) as [|c p]; simpl.
    - now exists (trim t).
    - now exists (lit " " ++ trim t). }
  destruct E as [suffix E]. exists suffix.
  destruct (milestone r); simpl; exact E.
Qed.

Lemma step_transcript (e : Event) (s : State) :
  pipeline_event e = true ->
  (exists suffix, transcript (step e s) = transcript s ++ suffix)
  /\ (is_ok_reply e = false -> transcript (step e s) = transcript s).
Proof.
  intros R.
  assert (same : forall x : State,
             transcript x = transcript s ->
             (exists suffix, transcript x = transcript s ++ suffix)
             /\ (is_ok_reply e = false -> transcript x = transcript s)).
  { intros x E. split; [|trivial]. exists []. now rewrite app_nil_r. }
  destruct e as [data| | | |i r| | |r]; simpl in *; try discriminate.
  - apply same. unfold ondataavailable.
    destruct (1000 <? size data); trivial.
    destruct (createCompleteAudioFile _); trivial.
    destruct (negb _); trivial.
    destruct (shift _) as [[c|] q]; trivial.
    now rewrite sendChunkToBackend_keeps_transcript.
  - apply same. unfold onstop.
    destruct (createCompleteAudioFile s) as [f|]; trivial.
    destruct (1000 <? size f); trivial.
    now rewrite sendChunkToBackend_keeps_transcript.
  - destruct (nth_error (inFlight s) i); [|now apply same].
    unfold sendChunkToBackend_resume.
    destruct r; try (now apply same).
    split; [|discriminate]. simpl.
    apply (handleResult_extends result
             (set_inFlight (remove_nth i (inFlight s)) s)).
  - apply same. destruct (timeouts s); trivial.
    unfold drain.
    destruct (_ && _); trivial.
    destruct (shift _) as [[c|] q]; trivial.
    now rewrite sendChunkToBackend_keeps_transcript.
Qed.

(** X9.  The dispatch pipeline only ever adds to the end of the transcript:
    over any sequence of segment deliveries, recorder stops, /transcribe
    replies and drain timers, the transcript there was is a prefix of the
    transcript there is; if none of the replies among them is a parsed one
    (they are failures), the transcript is untouched, so a failed
    transcription shows nothing.  In particular, as long as only such
    events follow the recorder's start event, the "Listening..." it writes
    stays in front of everything recognised. *)
Theorem transcript_only_grows (evs : list Event) (s : State)
    (pipeline : forallb pipeline_event evs = true) :
  (exists suffix, transcript (run evs s) = transcript s ++ suffix)
  /\ (forallb (fun e => negb (is_ok_reply e)) evs = true ->
      transcript (run evs s) = transcript s)
  /\ exists suffix,
       transcript (run evs (step RecorderStart s))
       = lit "Listening..." ++ suffix.
Proof.
  assert (G : forall s,
             (exists suffix, transcript (run evs s) = transcript s ++ suffix)
             /\ (forallb (fun e => negb (is_ok_reply e)) evs = true ->
                 transcript (run evs s) = transcript s)).
  { clear s. induction evs as [|e evs IH]; intros s.
    - split; [|trivial]. exists []. now rewrite app_nil_r.
    - simpl in pipeline. apply andb_prop in pipeline as [He Hl].
      destruct (step_transcript e s He) as [[x X] Q].
      destruct (IH Hl (step e s)) as [[y Y] Q'].
      rewrite run_cons. split.
      + exists (x ++ y). now rewrite Y, X, app_assoc.
      + simpl. intros H. apply andb_prop in H as [H1 H2].
        apply negb_true_iff in H1. now rewrite (Q' H2), (Q H1). }
  destruct (G s) as [A B]. repeat split; trivial.
  exact (proj1 (G (step RecorderStart s))).
Qed.

Lemma transcript_only_grows_witness :
  exists suffix,
    transcript
      (run [DataAvailable (segment 1500 x01);
            TranscribeReplied 0 (OkJson (mkResult (Some (lit "hello")) false))]
         (step RecorderStart initial))
    = lit "Listening..." ++ suffix.
Proof.
  apply (transcript_only_grows
           [DataAvailable (segment 1500 x01);
            TranscribeReplied 0 (OkJson (mkResult (Some (lit "hello")) false))]
           initial).
  reflexivity.
Defined.

(** ** The click handler *)

Lemma selectMimeType_spec (isTypeSupported : jsstring -> bool)
    (candidates : list jsstring) :
  forallb truthy candidates = true ->
  (existsb isTypeSupported candidates = false
   /\ selectMimeType isTypeSupported candidates = [])
  \/ exists before after,
       candidates
       = before ++ selectMimeType isTypeSupported candidates :: after
       /\ isTypeSupported (selectMimeType isTypeSupported candidates) = true
       /\ existsb isTypeSupported before = false.
Proof.
  induction candidates as [|m rest IH]; intros T; [now left|].
  simpl in T. apply andb_prop in T as [Tm Tr].
  simpl. rewrite Tm. simpl.
  destruct (isTypeSupported m) eqn:S.
  - right. exists [], rest. now repeat split.
  - destruct (IH Tr) as [[E N]|(before & after & C & Y & B)].
    + left. now split.
    + right. exists (m :: before), after. simpl. rewrite S.
      repeat split; trivial. now f_equal.
Qed.

(** X10.  Of a list of candidate types, none of them empty, the recorder is
    given the first one the browser supports: every candidate before it is
    unsupported; and it is given no type at all exactly when the browser
    supports none of them.  The five candidates of the component are such a
    list, with webm/opus first. *)
Theorem first_supported_type_is_selected (isTypeSupported : jsstring -> bool)
    (candidates : list jsstring)
    (named : forallb truthy candidates = true) :
  let options := recorderOptions (selectMimeType isTypeSupported candidates) in
  (options = None <-> existsb isTypeSupported candidates = false)
  /\ (forall mimeType,
         options = Some mimeType ->
         exists before after,
           candidates = before ++ mimeType :: after
           /\ isTypeSupported mimeType = true
           /\ existsb isTypeSupported before = false)
  /\ forallb truthy mimeTypes = true
  /\ hd [] mimeTypes = webm_opus.
Proof.
  intros options. subst options. unfold recorderOptions.
  destruct (selectMimeType_spec isTypeSupported candidates named)
    as [[E N]|(before & after & C & Y & B)].
  - rewrite N. simpl. repeat split; trivial. discriminate.
  - assert (T : truthy (selectMimeType isTypeSupported candidates) = true).
    { rewrite forallb_forall in named. apply named.
      rewrite C at 2. apply in_or_app. right. now left. }
    rewrite T. repeat split; trivial.
    + discriminate.
    + intros E. rewrite C, existsb_app in E. simpl in E.
      rewrite Y, orb_true_r in E. discriminate.
    + intros m [= <-]. now exists before, after.
Qed.

Lemma first_supported_type_is_selected_witness :
  let supported (m : jsstring) :=
    if list_eq_dec N.eq_dec m (lit "audio/wav") then true
    else if list_eq_dec N.eq_dec m (lit "audio/mp4") then true else false in
  recorderOptions (selectMimeType supported mimeTypes) = Some (lit "audio/wav")
  /\ exists before after,
       mimeTypes = before ++ lit "audio/wav" :: after
       /\ supported (lit "audio/wav") = true
       /\ existsb supported before = false.
Proof.
  intros supported. split; [reflexivity|].
  apply (proj1 (proj2 (first_supported_type_is_selected
                         supported mimeTypes eq_refl))).
  reflexivity.
Defined.

(** X11.  What is rendered hangs together: the button is disabled exactly
    when the status line reads "Connect to server first" or "Starting
    session...", an enabled button comes with the prompt that fits
    [isRecording], and the transcript area is never empty. *)
Theorem status_line_matches_button (p : Page) :
  (buttonDisabled p = true <->
   statusText p = lit "Connect to server first"
   \/ statusText p = lit "Starting session...")
  /\ (buttonDisabled p = false ->
      statusText p
      = if isRecording p then lit "Recording... Click to stop"
        else lit "Click to start recording")
  /\ truthy (transcriptShown p) = true
  /\ (truthy (transcript (component p)) = true ->
      transcriptShown p = transcript (component p)).
Proof.
  unfold buttonDisabled, statusText, transcriptShown.
  destruct (isConnected p), (sessionStarting (component p)), (isRecording p);
    simpl; repeat split; auto; try discriminate;
    try (intros [H|H]; discriminate H);
    try (destruct (transcript (component p)); reflexivity);
    try (intros ->; reflexivity).
Qed.

Lemma status_line_matches_button_witness :
  statusText first_page = lit "Connect to server first"
  /\ statusText (set_isConnected true first_page)
     = lit "Click to start recording".
Proof.
  split.
  - reflexivity.
  - apply (proj1 (proj2 (status_line_matches_button
                           (set_isConnected true first_page)))).
    reflexivity.
Defined.

(** X12.  A click handled by a closure that saw [isConnected] false asks
    for /health and, whatever the answer and whatever happened meanwhile,
    ends there with "Cannot connect to backend server": it starts no
    session, asks for no microphone and leaves [isRecording] alone, even
    when the health check has just succeeded and raised [isConnected] for
    the next render. *)
Theorem disconnected_click_stops_at_health
    (c : Closure) (isTypeSupported : jsstring -> bool) (p : Page)
    (offline : seen_isConnected c = false) :
  let t := handleMicClick c isTypeSupported p in
  waits t = ForHealth
  /\ page_of t = set_healthCalls (S (healthCalls p)) p
  /\ forall (r : HealthReply) (now : Page),
       let t' := answer (Health r) now t in
       waits t' = ForNothing
       /\ transcript (component (page_of t'))
          = lit "Cannot connect to backend server"
       /\ isConnected (page_of t')
          = match r with
            | HealthOk => true
            | HealthNotOk _ => isConnected now
            | HealthRejected => false
            end
       /\ isRecording (page_of t') = isRecording now
       /\ mediaRecorder (page_of t') = mediaRecorder now
       /\ mediaCalls (page_of t') = mediaCalls now
       /\ startCalls (component (page_of t')) = startCalls (component now)
       /\ sessionStarting (component (page_of t'))
          = sessionStarting (component now).
Proof.
  intros t. subst t. unfold handleMicClick. rewrite offline. simpl.
  repeat split; destruct r; reflexivity.
Qed.

Lemma disconnected_click_stops_at_health_witness :
  let t := handleMicClick (render first_page) (fun _ => true) first_page in
  let t' := answer (Health HealthOk) (page_of t) t in
  waits t' = ForNothing
  /\ isConnected (page_of t') = true
  /\ isRecording (page_of t') = false.
Proof.
  intros t t'.
  destruct (disconnected_click_stops_at_health
              (render first_page) (fun _ => true) first_page eq_refl)
    as (_ & _ & H).
  destruct (H HealthOk (page_of t)) as (W & _ & C & R & _).
  exact (conj W (conj C R)).
Defined.

(** X13.  A click seen connected, not recording and without a session,
    while no start is pending, sends one start request and waits for it
    before anything else.  If the reply gives no session (a failure, or an
    empty id), the click ends with "Failed to start recording session": the
    guard is down again, no microphone is asked for, no recorder made and
    [isRecording] is as it was. *)
Theorem failed_start_ends_click
    (c : Closure) (isTypeSupported : jsstring -> bool) (p : Page)
    (online : seen_isConnected c = true)
    (idle : seen_isRecording c = false)
    (no_session : truthy_id (seen_currentSession c) = false)
    (quiet : sessionStarting (component p) = false) :
  let t := handleMicClick c isTypeSupported p in
  waits t = ForStart
  /\ startCalls (component (page_of t)) = S (startCalls (component p))
  /\ sessionStarting (component (page_of t)) = true
  /\ mediaCalls (page_of t) = mediaCalls p
  /\ forall (r : StartReply) (now : Page),
       gives_no_session r = true ->
       let t' := answer (Start r) now t in
       waits t' = ForNothing
       /\ transcript (component (page_of t'))
          = lit "Failed to start recording session"
       /\ sessionStarting (component (page_of t')) = false
       /\ mediaCalls (page_of t') = mediaCalls now
       /\ mediaRecorder (page_of t') = mediaRecorder now
       /\ isRecording (page_of t') = isRecording now
       /\ audioChunks (component (page_of t'))
          = match r with
            | StartOk _ => []
            | _ => audioChunks (component now)
            end.
Proof.
  intros t. subst t. unfold handleMicClick, clicked.
  rewrite online, idle, no_session, quiet. simpl.
  unfold startNewSession. rewrite quiet. simpl.
  repeat split; destruct r as [| |id]; simpl in *;
    try reflexivity; rewrite H; reflexivity.
Qed.

Lemma failed_start_ends_click_witness :
  let p := set_isConnected true first_page in
  let t := handleMicClick (render p) (fun _ => true) p in
  let t' := answer (Start (StartNotOk 500)) (page_of t) t in
  waits t = ForStart
  /\ waits t' = ForNothing
  /\ transcript (component (page_of t'))
     = lit "Failed to start recording session".
Proof.
  intros p t t'.
  destruct (failed_start_ends_click
              (render p) (fun _ => true) p eq_refl eq_refl eq_refl eq_refl)
    as (W & _ & _ & _ & H).
  destruct (H (StartNotOk 500) (page_of t) eq_refl) as (W' & T & _).
  exact (conj W (conj W' T)).
Defined.

(** X14.  The same click, answered with a session id that is not empty,
    stores the id, empties transcript, accumulator and counter, and only
    then asks for the microphone.  If it is granted, a recorder is made
    with the first supported type (or none), it is recording, and
    [isRecording] is set; nothing is sent yet.  If it is denied, the click
    ends with "Microphone access denied or not available" and no recorder,
    but the session just started stays the current one. *)
Theorem started_session_asks_for_microphone
    (c : Closure) (isTypeSupported : jsstring -> bool) (p : Page)
    (session_id : jsstring)
    (online : seen_isConnected c = true)
    (idle : seen_isRecording c = false)
    (no_session : truthy_id (seen_currentSession c) = false)
    (quiet : sessionStarting (component p) = false)
    (named : truthy session_id = true) :
  forall now : Page,
    let t := answer (Start (StartOk session_id)) now
               (handleMicClick c isTypeSupported p) in
    waits t = ForMedia
    /\ mediaCalls (page_of t) = S (mediaCalls now)
    /\ currentSession (component (page_of t)) = Some session_id
    /\ transcript (component (page_of t)) = []
    /\ audioChunks (component (page_of t)) = []
    /\ chunkCounter (component (page_of t)) = 0
    /\ isRecording (page_of t) = isRecording now
    /\ forall later : Page,
         (let granted := page_of (answer (Media MediaGranted) later t) in
          waits (answer (Media MediaGranted) later t) = ForNothing
          /\ isRecording granted = true
          /\ mediaRecorder granted
             = Some (Recording,
                     recorderOptions
                       (selectMimeType isTypeSupported mimeTypes))
          /\ component granted = component later)
         /\ (let denied := page_of (answer (Media MediaDenied) later t) in
             waits (answer (Media MediaDenied) later t) = ForNothing
             /\ transcript (component denied)
                = lit "Microphone access denied or not available"
             /\ isRecording denied = isRecording later
             /\ mediaRecorder denied = mediaRecorder later
             /\ currentSession (component denied)
                = currentSession (component later)).
Proof.
  intros now t. subst t. unfold handleMicClick, clicked.
  rewrite online, idle, no_session, quiet. simpl.
  unfold startNewSession. rewrite quiet. simpl. rewrite named. simpl.
  repeat split.
Qed.

Lemma started_session_asks_for_microphone_witness :
  let p := set_isConnected true first_page in
  let first := handleMicClick (render p) (fun _ => false) p in
  let t := answer (Start (StartOk (lit "s-1"))) (page_of first) first in
  let granted := page_of (answer (Media MediaGranted) (page_of t) t) in
  waits t = ForMedia
  /\ isRecording granted = true
  /\ mediaRecorder granted = Some (Recording, None)
  /\ currentSession (component granted) = Some (lit "s-1").
Proof.
  intros p first t granted.
  destruct (started_session_asks_for_microphone
              (render p) (fun _ => false) p (lit "s-1")
              eq_refl eq_refl eq_refl eq_refl eq_refl (page_of first))
    as (W & _ & _ & _ & _ & _ & _ & H).
  destruct (H (page_of t)) as [(_ & R & M & _) _].
  repeat split; trivial.
Defined.

(** X15.  A click seen connected and recording stops: the recorder is
    stopped if there is one and it is not inactive already, [isRecording]
    is lowered, one timer is set, and that is all; no request of any kind
    goes out and the pipeline state is untouched.  When the timer fires,
    the session is forgotten. *)
Theorem stop_click_only_stops
    (c : Closure) (isTypeSupported : jsstring -> bool) (p : Page)
    (online : seen_isConnected c = true)
    (recording : seen_isRecording c = true) :
  let t := handleMicClick c isTypeSupported p in
  waits t = ForNothing
  /\ isRecording (page_of t) = false
  /\ sessionTimers (page_of t) = S (sessionTimers p)
  /\ component (page_of t) = component p
  /\ healthCalls (page_of t) = healthCalls p
  /\ mediaCalls (page_of t) = mediaCalls p
  /\ mediaRecorder (page_of t)
     = match mediaRecorder p with
       | Some (_, options) => Some (Inactive, options)
       | None => None
       end
  /\ currentSession (component (sessionTimerFired (page_of t))) = None
  /\ sessionTimers (sessionTimerFired (page_of t)) = sessionTimers p.
Proof.
  intros t. subst t. unfold handleMicClick, clicked, stopRecording.
  rewrite online, recording. simpl.
  destruct (mediaRecorder p) as [[[] options]|] eqn:M;
    simpl; rewrite ?M; repeat split.
Qed.

Lemma stop_click_only_stops_witness :
  let p :=
    set_mediaRecorder (Some (Recording, None))
      (set_isRecording true (set_isConnected true first_page)) in
  let t := handleMicClick (render p) (fun _ => true) p in
  isRecording (page_of t) = false
  /\ mediaRecorder (page_of t) = Some (Inactive, None)
  /\ component (page_of t) = initial.
Proof.
  intros p t.
  destruct (stop_click_only_stops (render p) (fun _ => true) p
              eq_refl eq_refl) as (_ & R & _ & C & _ & _ & M & _).
  exact (conj R (conj M C)).
Defined.

(** X16.  After a stop click, what the next click does depends on the
    one-second timer.  Once it has fired, the next click finds no session
    and asks for a new one.  Before it has fired, the next click still sees
    the old session: it asks for no session, goes straight to the
    microphone, and when the timer then fires the component records with
    no current session. *)
Theorem restart_depends_on_timer
    (isTypeSupported : jsstring -> bool) (p : Page)
    (online : isConnected p = true)
    (recording : isRecording p = true)
    (in_session : truthy_id (currentSession (component p)) = true)
    (quiet : sessionStarting (component p) = false) :
  let stopped := page_of (handleMicClick (render p) isTypeSupported p) in
  (let late := sessionTimerFired stopped in
   let t := handleMicClick (render late) isTypeSupported late in
   waits t = ForStart
   /\ startCalls (component (page_of t)) = S (startCalls (component p)))
  /\ (let t := handleMicClick (render stopped) isTypeSupported stopped in
      let granted :=
        page_of (answer (Media MediaGranted)
                   (sessionTimerFired (page_of t)) t) in
      waits t = ForMedia
      /\ startCalls (component (page_of t)) = startCalls (component p)
      /\ isRecording granted = true
      /\ currentSession (component granted) = None).
Proof.
  intros stopped. subst stopped.
  unfold handleMicClick at 2 4, clicked at 2 4, stopRecording, render.
  simpl. rewrite online, recording. simpl.
  destruct (mediaRecorder p) as [[[] options]|] eqn:M;
    unfold handleMicClick, clicked, render, sessionTimerFired; simpl;
    rewrite ?online, ?in_session, ?quiet; simpl;
    unfold startNewSession; simpl; rewrite ?quiet; simpl; repeat split.
Qed.

Lemma restart_depends_on_timer_witness :
  let p :=
    set_component (set_currentSession (Some (lit "s-1")) initial)
      (set_mediaRecorder (Some (Recording, None))
         (set_isRecording true (set_isConnected true first_page))) in
  let stopped := page_of (handleMicClick (render p) (fun _ => true) p) in
  let t := handleMicClick (render stopped) (fun _ => true) stopped in
  waits t = ForMedia
  /\ currentSession
       (component
          (page_of (answer (Media MediaGranted)
                      (sessionTimerFired (page_of t)) t))) = None.
Proof.
  intros p stopped t.
  destruct (restart_depends_on_timer (fun _ => true) p
              eq_refl eq_refl eq_refl eq_refl) as (_ & W & _ & _ & C).
  exact (conj W C).
Defined.

(** ** The first MicRecorder *)

Lemma simple_run_within (mid : list SimpleRecorder.Event) :
  forallb simple_within_recording mid = true ->
  forall s : SimpleRecorder.State,
    SimpleRecorder.mediaRecorderRef s = true ->
    let s' := SimpleRecorder.run mid s in
    SimpleRecorder.audioChunksRef s'
    = SimpleRecorder.audioChunksRef s ++ simple_delivered mid
    /\ SimpleRecorder.transcribeCalls s' = SimpleRecorder.transcribeCalls s
    /\ SimpleRecorder.mediaRecorderRef s' = true
    /\ (SimpleRecorder.isRecording s = false
        \/ In SimpleRecorder.StopClicked mid ->
        SimpleRecorder.isRecording s' = false).
Proof.
  induction mid as [|e mid IH]; intros W s M; simpl.
  - rewrite app_nil_r. repeat split; trivial. now intros [H|[]].
  - simpl in W. apply andb_prop in W as [We Wm].
    assert (E : SimpleRecorder.mediaRecorderRef (SimpleRecorder.step e s)
                = true
                /\ SimpleRecorder.transcribeCalls (SimpleRecorder.step e s)
                   = SimpleRecorder.transcribeCalls s
                /\ SimpleRecorder.audioChunksRef (SimpleRecorder.step e s)
                   = SimpleRecorder.audioChunksRef s
                     ++ simple_delivered [e]
                /\ (SimpleRecorder.isRecording s = false
                    \/ e = SimpleRecorder.StopClicked ->
                    SimpleRecorder.isRecording (SimpleRecorder.step e s)
                    = false)).
    { destruct e as [| | |data| |r]; try discriminate; simpl.
      - rewrite app_nil_r. repeat split; trivial.
        intros [H|H]; [exact H | discriminate].
      - unfold SimpleRecorder.stopClicked. rewrite M. simpl.
        rewrite app_nil_r. now repeat split.
      - repeat split; trivial. intros [H|H]; [exact H | discriminate].
      - rewrite app_nil_r.
        destruct (SimpleRecorder.awaited s); simpl; repeat split; trivial;
          intros [H|H]; try exact H; discriminate. }
    destruct E as (M' & C' & A' & R').
    destruct (IH Wm (SimpleRecorder.step e s) M') as (A & C & M2 & R).
    unfold SimpleRecorder.run in *.
    rewrite A, C, A', C'. simpl in *. rewrite app_nil_r, <- app_assoc.
    repeat split; trivial.
    intros [H|[H|H]]; apply R.
    + left. apply R'. now left.
    + left. apply R'. now right.
    + now right.
Qed.

(** X17.  In the first MicRecorder one recording makes one request.  From
    the grant of the microphone to the stop event of the recorder, every
    segment delivered is kept, whether it comes before or after the click
    that stops (the recorder is started without a time slice, so the
    browser delivers after it), short or empty ones too; the stop event
    posts them all as one audio/webm file, in order of delivery, with
    nothing of an earlier recording in it, and a stop click in between has
    lowered [isRecording].  The reply then replaces the transcript,
    whatever it was, by the text, by an "Error: ..." line when the text is
    missing or empty, or by "Failed to reach backend.". *)
Theorem simple_recording_is_one_request
    (mid : list SimpleRecorder.Event) (r : SimpleRecorder.Reply)
    (s : SimpleRecorder.State)
    (within : forallb simple_within_recording mid = true) :
  let recorded :=
    SimpleRecorder.run
      (SimpleRecorder.MicrophoneGranted
         :: mid ++ [SimpleRecorder.RecorderStopped]) s in
  let answered := SimpleRecorder.step (SimpleRecorder.Replied r) recorded in
  SimpleRecorder.transcribeCalls recorded
  = SimpleRecorder.transcribeCalls s
    ++ [mkBlob (concat (map blob_data (simple_delivered mid)))
          (lit "audio/webm")]
  /\ (In SimpleRecorder.StopClicked mid ->
      SimpleRecorder.isRecording recorded = false)
  /\ SimpleRecorder.transcribeCalls answered
     = SimpleRecorder.transcribeCalls recorded
  /\ SimpleRecorder.transcript answered = SimpleRecorder.shown r
  /\ truthy (SimpleRecorder.shown r) = true
  /\ (forall error,
         SimpleRecorder.shown (SimpleRecorder.Parsed (Some []) error)
         = SimpleRecorder.shown (SimpleRecorder.Parsed None error)).
Proof.
  intros recorded answered.
  destruct (simple_run_within mid within (SimpleRecorder.granted s) eq_refl)
    as (A & C & M & R).
  assert (E : recorded
              = SimpleRecorder.onstop
                  (SimpleRecorder.run mid (SimpleRecorder.granted s))).
  { subst recorded. unfold SimpleRecorder.run.
    cbn [fold_left]. rewrite fold_left_app. reflexivity. }
  assert (W : exists n, SimpleRecorder.awaited recorded = S n).
  { rewrite E. now eexists. }
  destruct W as [n W].
  repeat split.
  - rewrite E. unfold SimpleRecorder.onstop. simpl. rewrite A, C. reflexivity.
  - intros I. rewrite E. simpl. apply R. now right.
  - subst answered. simpl. now rewrite W.
  - subst answered. simpl. now rewrite W.
  - destruct r as [[t|] [e|]|]; simpl; trivial;
      try (destruct t; simpl; trivial); destruct e; reflexivity.
Qed.

Lemma simple_recording_is_one_request_witness :
  let mid :=
    [SimpleRecorder.StopClicked;
     SimpleRecorder.DataAvailable (segment 700 x01)] in
  let recorded :=
    SimpleRecorder.run
      (SimpleRecorder.MicrophoneGranted
         :: mid ++ [SimpleRecorder.RecorderStopped])
      SimpleRecorder.initial in
  SimpleRecorder.transcribeCalls recorded
  = [mkBlob (repeat x01 700 ++ []) (lit "audio/webm")]
  /\ SimpleRecorder.isRecording recorded = false.
Proof.
  intros mid recorded.
  destruct (simple_recording_is_one_request mid
              (SimpleRecorder.Parsed None None) SimpleRecorder.initial
              eq_refl) as (C & R & _).
  split; [exact C | apply R; now left].
Defined.

(** ** The queue without stops *)

(** X19.  Over any sequence of events with no recorder stop among them, the
    payloads for which a request has been issued, followed by the payloads
    waiting in [chunkQueue], are exactly the payloads the capture handler
    has produced, in the order it produced them: none is skipped, none
    replaced, none sent out of turn. *)
Theorem queue_is_fifo_without_stop (evs : list Event)
    (no_stop : forallb (fun e => negb (is_stop e)) evs = true) :
  let s := run evs initial in
  sent s ++ chunkQueue s = submitted s.
Proof.
  intros s.
  assert (F : fifo s).
  { apply (run_fifo evs (s := initial) no_stop). reflexivity. }
  exact F.
Qed.

Lemma queue_is_fifo_without_stop_witness :
  let evs :=
    [DataAvailable (segment 1001 x01); DataAvailable (segment 1002 x02);
     TranscribeReplied 0 FetchRejected; DataAvailable (segment 1003 x03);
     TimeoutFired] in
  sent (run evs initial) ++ chunkQueue (run evs initial)
  = submitted (run evs initial).
Proof.
  intros evs.
  apply (queue_is_fifo_without_stop evs eq_refl).
Defined.
